(** * SelenoidTests: the scraper of [src/scraper.py]

    A shallow embedding of [SelenoidWebScraper]: the session life cycle
    ([start], [stop]), the retry loop ([_safe_get]), the page fetch
    ([_fetch_url]), the text extraction ([_remove_unwanted_elements],
    [_extract_paragraphs]), [scrape], and the route of [src/routers.py] that
    calls it.

    The remote browser (Selenium's [webdriver.Remote] talking to Selenoid) is
    outside the repository.  It is modelled as an environment that answers
    every call the scraper makes, as a function of everything that happened
    before: the scraper's code is a computation over the chronological trace
    of its calls.  Python exceptions are outcomes of that computation. *)

From Stdlib Require Import String Ascii List Arith Bool Lia Permutation.
Import ListNotations.
Local Open Scope string_scope.
Local Open Scope nat_scope.
Local Open Scope list_scope.

(** ** Exceptions *)

Module Exn.

(** What an exception of Selenium carries: the three arguments of
    [WebDriverException.__init__].  [msg] is the message as [str] prints it. *)
Record details : Type := {
  msg : string;
  screen : option string;
  stacktrace : option (list string)
}.

(** An exception raised with a message alone, as in
    [TimeoutException("timeout")]: no screenshot, no stack trace. *)
Definition message (m : string) : details :=
  {| msg := m; screen := None; stacktrace := None |}.
Coercion message : string >-> details.

(** The exception classes the scraper distinguishes.  In Selenium
    [TimeoutException], [InvalidSessionIdException] and
    [NoSuchElementException] derive from [WebDriverException]; the
    constructor [WebDriverException] stands for the base class and for every
    other class derived from it (an invalid argument, an unknown error...).
    [PyException] is any exception outside that hierarchy. *)
Inductive exn : Type :=
| TimeoutException (e : details)
| InvalidSessionIdException (e : details)
| NoSuchElementException (e : details)
| WebDriverException (e : details)
| PyException (cls text : string).

(** [isinstance(e, WebDriverException)] *)
Definition is_WebDriverException (e : exn) : bool :=
  match e with
  | PyException _ _ => false
  | _ => true
  end.

(** [isinstance(e, TimeoutException)] *)
Definition is_TimeoutException (e : exn) : bool :=
  match e with
  | TimeoutException _ => true
  | _ => false
  end.

(** [isinstance(e, InvalidSessionIdException)] *)
Definition is_InvalidSessionIdException (e : exn) : bool :=
  match e with
  | InvalidSessionIdException _ => true
  | _ => false
  end.

(** [isinstance(e, NoSuchElementException)] *)
Definition is_NoSuchElementException (e : exn) : bool :=
  match e with
  | NoSuchElementException _ => true
  | _ => false
  end.

(** What a [WebDriverException] carries; nothing for another exception
    ([getattr(exc, "screen", None)]). *)
Definition carried (e : exn) : option details :=
  match e with
  | TimeoutException d | InvalidSessionIdException d
  | NoSuchElementException d | WebDriverException d => Some d
  | PyException _ _ => None
  end.

Definition LF : string := String (ascii_of_nat 10) EmptyString.

(** [WebDriverException.__str__]: the message on a line of its own, then a
    line when there is a screenshot, then the stack trace when there is
    one. *)
Definition str_details (d : details) : string :=
  ("Message: " ++ msg d ++ LF
   ++ match screen d with
      | Some (String _ _) => "Screenshot: available via screen" ++ LF
      | _ => EmptyString
      end
   ++ match stacktrace d with
      | Some (_ :: _ as lines) => "Stacktrace:" ++ LF ++ String.concat LF lines
      | _ => EmptyString
      end)%string.

(** [str(e)] *)
Definition str (e : exn) : string :=
  match e with
  | TimeoutException d | InvalidSessionIdException d
  | NoSuchElementException d | WebDriverException d => str_details d
  | PyException _ text => text
  end.

End Exn.
Export Exn.

(** ** The remote browser and the host *)

Module Endpoint.

(** A [webdriver.Remote] object: the n-th driver object the run created. *)
Definition WebDriver : Type := nat.

Inductive pref : Type :=
| PBool (b : bool)
| PInt (n : nat)
| PStr (s : string).

(** [webdriver.FirefoxOptions]: the command-line arguments and the
    preferences, latest first. *)
Record FirefoxOptions : Type := {
  arguments : list string;
  preferences : list (string * pref)
}.

Definition empty_options : FirefoxOptions :=
  {| arguments := []; preferences := [] |}.

Definition add_argument (a : string) (o : FirefoxOptions) : FirefoxOptions :=
  {| arguments := a :: arguments o; preferences := preferences o |}.

Definition set_preference (k : string) (v : pref) (o : FirefoxOptions)
  : FirefoxOptions :=
  {| arguments := arguments o; preferences := (k, v) :: preferences o |}.

(** What a call answered: a value, or the exception it raised. *)
Inductive reply (A : Type) : Type :=
| Ok (a : A)
| Err (e : exn).
Arguments Ok {A} a.
Arguments Err {A} e.

(** One entry of the trace: a call the scraper made, with its answer. *)
Inductive event : Type :=
| NewSession (executor : string) (opts : FirefoxOptions) (r : reply WebDriver)
| SetPageLoadTimeout (d : WebDriver) (seconds : nat) (r : reply unit)
| ExecuteScript (d : WebDriver) (script : string) (r : reply string)
| Get (d : WebDriver) (url : string) (r : reply unit)
| PageSource (d : WebDriver) (r : reply string)
| Quit (d : WebDriver) (r : reply unit)
| Print (line : string).

Definition trace : Type := list event.

(** The environment of a run.  Every answer may depend on the whole trace so
    far, so any deterministic endpoint (one that fails, times out or drops a
    session at any point) is an [Env].  [random_choice t n] is the index
    [random.choice] picks in a sequence of length [n];
    [random_swap t] tells whether [random.sample] swaps the two actions of
    [_imitate_user_behavior]; [polls_left t] is the number of further polls
    the clock allows a [WebDriverWait] that starts at [t]. *)
Record Env : Type := {
  on_new_session : trace -> string -> FirefoxOptions -> reply unit;
  on_set_page_load_timeout : trace -> WebDriver -> nat -> reply unit;
  on_execute_script : trace -> WebDriver -> string -> reply string;
  on_get : trace -> WebDriver -> string -> reply unit;
  on_page_source : trace -> WebDriver -> reply string;
  on_quit : trace -> WebDriver -> reply unit;
  random_choice : trace -> nat -> nat;
  random_swap : trace -> bool;
  polls_left : trace -> nat
}.

Definition is_created (e : event) : bool :=
  match e with
  | NewSession _ _ (Ok _) => true
  | _ => false
  end.

(** The driver objects created so far. *)
Definition created (t : trace) : nat := length (filter is_created t).

End Endpoint.
Export Endpoint.

(** ** Computations *)

Module Run.

Inductive outcome (A : Type) : Type :=
| Returned (a : A)
| Raised (e : exn)
| Diverged.
Arguments Returned {A} a.
Arguments Raised {A} e.
Arguments Diverged {A}.

Definition M (A : Type) : Type := trace -> trace * outcome A.

Definition ret {A} (a : A) : M A := fun t => (t, Returned a).

Definition raise {A} (e : exn) : M A := fun t => (t, Raised e).

Definition diverge {A} : M A := fun t => (t, Diverged).

Definition bind {A B} (m : M A) (k : A -> M B) : M B :=
  fun t =>
    match m t with
    | (t', Returned a) => k a t'
    | (t', Raised e) => (t', Raised e)
    | (t', Diverged) => (t', Diverged)
    end.

(** The [except] clauses of a [try], each with the classes it names and its
    block: the first clause that names a class of the exception handles it;
    when none does, the exception goes on. *)
Fixpoint except {A} (clauses : list ((exn -> bool) * (exn -> M A)))
    (ex : exn) : M A :=
  match clauses with
  | [] => raise ex
  | (classes, handler) :: rest =>
      if classes ex then handler ex else except rest ex
  end.

(** [try: body  except ... : ...  except ... : ...] *)
Definition try_except {A} (body : M A)
    (clauses : list ((exn -> bool) * (exn -> M A))) : M A :=
  fun t =>
    match body t with
    | (t', Raised ex) => except clauses ex t'
    | r => r
    end.

(** [try: body  finally: final]: [final] runs on every exit of [body]; an
    exception of [final] replaces the outcome of [body]. *)
Definition try_finally {A} (body : M A) (final : M unit) : M A :=
  fun t =>
    match body t with
    | (t', Diverged) => (t', Diverged)
    | (t', r) =>
        match final t' with
        | (t'', Returned _) => (t'', r)
        | (t'', Raised e) => (t'', Raised e)
        | (t'', Diverged) => (t'', Diverged)
        end
    end.

(** A call: the environment answers, the trace records it. *)
Definition call {A} (answer : trace -> reply A) (ev : reply A -> event)
  : M A :=
  fun t =>
    let r := answer t in
    (t ++ [ev r],
     match r with
     | Ok a => Returned a
     | Err e => Raised e
     end).

Definition print (line : string) : M unit :=
  fun t => (t ++ [Print line], Returned tt).

End Run.
Export Run.

Declare Scope run_scope.
Delimit Scope run_scope with run.
Notation "x <- m ;; k" := (bind m (fun x => k))
  (at level 61, m at next level, right associativity) : run_scope.
Notation "m ;; k" := (bind m (fun _ => k))
  (at level 61, right associativity) : run_scope.
Local Open Scope run_scope.

(** ** Selenium's driver calls *)

Section Driver.

Variable env : Env.

(** [webdriver.Remote(command_executor=..., options=...)]: a new driver
    object when the endpoint accepts the session. *)
Definition Remote (command_executor : string) (options : FirefoxOptions)
  : M WebDriver :=
  fun t =>
    match on_new_session env t command_executor options with
    | Ok _ =>
        (t ++ [NewSession command_executor options (Ok (created t))],
         Returned (created t))
    | Err e =>
        (t ++ [NewSession command_executor options (Err e)], Raised e)
    end.

(** [driver.set_page_load_timeout(seconds)] *)
Definition set_page_load_timeout (driver : WebDriver) (seconds : nat)
  : M unit :=
  call (fun t => on_set_page_load_timeout env t driver seconds)
       (SetPageLoadTimeout driver seconds).

(** [driver.execute_script(script)] *)
Definition execute_script (driver : WebDriver) (script : string) : M string :=
  call (fun t => on_execute_script env t driver script)
       (ExecuteScript driver script).

(** [driver.get(url)] *)
Definition get (driver : WebDriver) (url : string) : M unit :=
  call (fun t => on_get env t driver url) (Get driver url).

(** [driver.page_source] *)
Definition page_source (driver : WebDriver) : M string :=
  call (fun t => on_page_source env t driver) (PageSource driver).

(** [driver.quit()] *)
Definition quit (driver : WebDriver) : M unit :=
  call (fun t => on_quit env t driver) (Quit driver).

(** The polling loop of [WebDriverWait.until]: call [method]; a true value
    ends the wait; an ignored exception counts as a false value, and its
    screenshot and stack trace are kept in the two locals of [until]; any
    other exception propagates; when the deadline has passed,
    [TimeoutException(message, screen, stacktrace)] with the empty
    message. *)
Fixpoint until_poll (polls : nat) (method : M bool) (screen : option string)
    (stacktrace : option (list string)) : M unit :=
  turn <- try_except (value <- method ;; ret (value, screen, stacktrace))
            [(is_NoSuchElementException,
              fun exc =>
                ret (false,
                     match carried exc with
                     | Some d => Exn.screen d
                     | None => None
                     end,
                     match carried exc with
                     | Some d => Exn.stacktrace d
                     | None => None
                     end))] ;;
  let '(value, screen, stacktrace) := turn in
  if value then ret tt
  else
    match polls with
    | O =>
        raise (TimeoutException
                 {| msg := EmptyString;
                    Exn.screen := screen;
                    Exn.stacktrace := stacktrace |})
    | S polls' => until_poll polls' method screen stacktrace
    end.

(** [WebDriverWait(driver, timeout).until(method)] *)
Definition WebDriverWait_until (driver : WebDriver) (timeout : nat)
    (method : WebDriver -> M bool) : M unit :=
  fun t => until_poll (polls_left env t) (method driver) None None t.

(** [random.choice(seq)] *)
Definition random_choice_of (seq : list string) : M string :=
  fun t =>
    match seq with
    | [] =>
        (t, Raised (PyException "IndexError"
                      "Cannot choose from an empty sequence"))
    | x :: _ =>
        (t, Returned
              (nth (random_choice env t (length seq) mod length seq) seq x))
    end.

(** [random.sample(actions, len(actions))] for the two actions of
    [_imitate_user_behavior]. *)
Definition random_sample {A} (actions : list A) : M (list A) :=
  fun t => (t, Returned (if random_swap env t then rev actions else actions)).

End Driver.

(** ** SelenoidWebScraper: sessions, retries and the fetch *)

Definition _USER_AGENTS : list string :=
  [ "Mozilla/5.0 (Macintosh; Intel Mac OS X 10_15_7; rv:115.0) Gecko/20000101 Firefox/115.0";
    "Mozilla/5.0 (Macintosh; Intel Mac OS X 13.5; rv:109.0) Gecko/20100101 Firefox/115.0";
    "Mozilla/5.0 (Macintosh; Intel Mac OS X 11_11_2; rv:115.0) Gecko/20100101 Firefox/115.0";
    "Mozilla/5.0 (Macintosh; Intel Mac OS X 11_11_6; rv:115.0) Gecko/20010101 Firefox/115.0";
    "Mozilla/5.0 (Macintosh; Intel Mac OS X 11_14; rv:115.0) Gecko/20010101 Firefox/115.0";
    "Mozilla/5.0 (Macintosh; Intel Mac OS X 11_5_2; rv:115.0) Gecko/20100101 Firefox/115.0";
    "Mozilla/5.0 (Macintosh; Intel Mac OS X 11_2; rv:115.0) Gecko/20110101 Firefox/115.0";
    "Mozilla/5.0 (Macintosh; Intel Mac OS X 10_15_7; rv:115.0) Gecko/20000101 Firefox/115.0" ].

(** The object: [__init__] stores its two arguments. *)
Record SelenoidWebScraper : Type := {
  USER_AGENTS : list string;
  command_executor : string
}.

Definition NOT_RESPONDING : string := "This site is not responding.".
Definition NOT_RELEVANT : string :=
  "This result doesn`t contain relevant information.".

Section Sessions.

Variable env : Env.
Variable self : SelenoidWebScraper.

(** [get_random_user_agent] *)
Definition get_random_user_agent : M string :=
  random_choice_of env (USER_AGENTS self).

(** [_create_firefox_driver].  The last statement before the [return]
    updates a dictionary that [to_capabilities()] has just built and that
    nothing keeps: it leaves the options as they are. *)
Definition _create_firefox_driver : M WebDriver :=
  let firefox_options := empty_options in
  let firefox_options := add_argument "--headless" firefox_options in
  let firefox_options := add_argument "--no-sandbox" firefox_options in
  let firefox_options :=
    add_argument "--disable-dev-shm-usage" firefox_options in
  let firefox_options := add_argument "--disable-gpu" firefox_options in
  let firefox_options :=
    add_argument "--disable-blink-features=AutomationControlled"
      firefox_options in
  let firefox_options :=
    set_preference "javascript.enabled" (PBool true) firefox_options in
  let firefox_options :=
    set_preference "dom.webdriver.enabled" (PBool false) firefox_options in
  user_agent <- get_random_user_agent ;;
  let firefox_options :=
    set_preference "general.useragent.override" (PStr user_agent)
      firefox_options in
  let firefox_options :=
    set_preference "permissions.default.image" (PInt 2) firefox_options in
  let firefox_options :=
    set_preference "dom.ipc.plugins.enabled.libflashplayer.so" (PBool false)
      firefox_options in
  let firefox_options :=
    set_preference "dom.webnotifications.enabled" (PBool false)
      firefox_options in
  let firefox_options :=
    set_preference "media.volume_scale" (PStr "0.0") firefox_options in
  let firefox_options :=
    set_preference "app.update.auto" (PBool false) firefox_options in
  let firefox_options :=
    set_preference "app.update.enabled" (PBool false) firefox_options in
  Remote env (command_executor self) firefox_options.

(** [for action in actions: action(); time.sleep(...)]; the pauses take
    time and do nothing else. *)
Fixpoint run_actions (actions : list (M string)) : M unit :=
  match actions with
  | [] => ret tt
  | action :: rest => _ <- action ;; run_actions rest
  end.

(** [_imitate_user_behavior] *)
Definition _imitate_user_behavior (driver : WebDriver) : M unit :=
  let actions :=
    [ execute_script env driver
        "window.scrollTo(0, document.body.scrollHeight);";
      execute_script env driver
        "window.scrollTo(document.body.scrollHeight, 0);" ] in
  shuffled <- random_sample env actions ;;
  run_actions shuffled.

(** [start] *)
Definition start : M WebDriver :=
  driver <- _create_firefox_driver ;;
  set_page_load_timeout env driver 20 ;;
  _ <- execute_script env driver
    "Object.defineProperty(navigator, 'webdriver', {get: () => undefined})" ;;
  _imitate_user_behavior driver ;;
  ret driver.

(** [stop] *)
Definition stop (driver : WebDriver) : M unit :=
  try_except (quit env driver)
    [(fun ex => is_WebDriverException ex || is_InvalidSessionIdException ex,
      fun _ =>
        print
          "Browser session was not found. It might have been closed already.")].

(** The classes of the [except] clause of [_safe_get]. *)
Definition _safe_get_catches (ex : exn) : bool :=
  is_TimeoutException ex || is_WebDriverException ex
  || is_InvalidSessionIdException ex.

Definition str_of_last (last_exception : option exn) : string :=
  match last_exception with
  | Some ex => Exn.str ex
  | None => "None"
  end.

(** The [while retries < 3] loop of [_safe_get], with its three locals.
    One turn either returns from the function ([inl]) or goes on to the next
    turn with the locals it has set ([inr]).  [fuel] bounds the turns. *)
Fixpoint _safe_get_while (fuel : nat) (method : M unit) (retries : nat)
    (driver : WebDriver) (last_exception : option exn) : M bool :=
  if retries <? 3 then
    match fuel with
    | O => diverge
    | S fuel' =>
        turn <- try_except
                  (method ;; ret (inl true))
                  [(_safe_get_catches,
                    fun ex =>
                      let retries := retries + 1 in
                      let last_exception := Some ex in
                      if retries <? 3 then
                        stop driver ;;
                        driver <- start ;;
                        ret (inr (retries, driver, last_exception))
                      else ret (inr (retries, driver, last_exception)))] ;;
        match turn with
        | inl result => ret result
        | inr (retries, driver, last_exception) =>
            _safe_get_while fuel' method retries driver last_exception
        end
    end
  else
    print ("Max retries reached. Last error in _safe_get: "
             ++ str_of_last last_exception)%string ;;
    ret false.

(** [_safe_get(driver, method, *args)]; [method] comes with its arguments
    applied.  Three turns of fuel are enough ([safe_get_while_total]). *)
Definition _safe_get (driver : WebDriver) (method : M unit) : M bool :=
  _safe_get_while 3 method 0 driver None.

(** [_fetch_url].  [driver.get] is the bound method of the driver that
    [start] returned here: it is what [_safe_get] calls on every attempt. *)
Definition _fetch_url (url : string) : M (option string) :=
  driver <- start ;;
  try_finally
    (try_except
       (ok <- _safe_get driver (get env driver url) ;;
        if negb ok then ret (Some NOT_RESPONDING)
        else
          WebDriverWait_until env driver 10
            (fun x =>
               state <- execute_script env x "return document.readyState" ;;
               ret (String.eqb state "complete")) ;;
          source <- page_source env driver ;;
          ret (Some source))
       [(is_TimeoutException,
         fun e =>
           print ("TimeoutException in WebDriverWait, web site not loaded full: "
                    ++ url ++ ": " ++ Exn.str e)%string ;;
           ret (Some NOT_RESPONDING));
        (is_WebDriverException,
         fun e =>
           print ("Error fetching page source from " ++ url ++ ": "
                    ++ Exn.str e)%string ;;
           ret None)])
    (stop driver).

End Sessions.

(** ** Python strings *)

Module Str.

(** [c.isspace()] for the code points below 256. *)
Definition isspace (c : ascii) : bool :=
  let n := nat_of_ascii c in
  ((9 <=? n) && (n <=? 13)) || ((28 <=? n) && (n <=? 32))
  || (n =? 133) || (n =? 160).

(** [s.lstrip()] *)
Fixpoint lstrip (s : string) : string :=
  match s with
  | EmptyString => EmptyString
  | String c rest => if isspace c then lstrip rest else s
  end.

(** [s.rstrip()] *)
Fixpoint rstrip (s : string) : string :=
  match s with
  | EmptyString => EmptyString
  | String c rest =>
      match rstrip rest with
      | EmptyString => if isspace c then EmptyString else String c EmptyString
      | rest' => String c rest'
      end
  end.

(** [s.strip()] *)
Definition strip (s : string) : string := rstrip (lstrip s).

(** [sep.join(parts)] *)
Definition join (sep : string) (parts : list string) : string :=
  String.concat sep parts.

Definition newline : string := String (ascii_of_nat 10) EmptyString.

(** [s * n] *)
Fixpoint times (s : string) (n : nat) : string :=
  match n with
  | O => EmptyString
  | S n' => s ++ times s n'
  end.

(** [str(n)] for a length *)
Fixpoint digits (fuel n : nat) (acc : string) : string :=
  let acc := String (ascii_of_nat (48 + n mod 10)) acc in
  match fuel with
  | O => acc
  | S fuel' => if n / 10 =? 0 then acc else digits fuel' (n / 10) acc
  end.

Definition of_nat (n : nat) : string := digits n n EmptyString.

End Str.

(** ** BeautifulSoup trees *)

Module Soup.

(** An attribute value: a string, or the list of the whitespace-separated
    values of a multi-valued attribute ([class]). *)
Inductive attr_value : Type :=
| AttrString (s : string)
| AttrList (items : list string).

Definition attrs_t : Type := list (string * attr_value).

(** A node of the tree: a text string, a string [get_text] leaves out (a
    comment), or a tag with its attributes and contents. *)
#[local] Unset Elimination Schemes.
Inductive node : Type :=
| NavigableString (s : string)
| Comment (s : string)
| Tag (name : string) (attrs : attrs_t) (contents : list node).
#[local] Set Elimination Schemes.

(** [attrs.get(attr)] *)
Fixpoint attrs_get (attrs : attrs_t) (attr : string) : option attr_value :=
  match attrs with
  | [] => None
  | (k, v) :: rest => if String.eqb k attr then Some v else attrs_get rest attr
  end.

(** [SoupStrainer._matches(markup, match_against)] for a string
    [match_against]: a multi-valued attribute matches when one of its values
    is the string, or when its values joined by spaces are; a single-valued
    one when it is the string; an absent one only the empty string. *)
Definition _matches (markup : option attr_value) (match_against : string)
  : bool :=
  match markup with
  | Some (AttrList items) =>
      existsb (fun item => String.eqb item match_against) items
      || String.eqb (Str.join " " items) match_against
  | Some (AttrString s) => String.eqb s match_against
  | None => String.eqb match_against EmptyString
  end.

(** What [find_all] is asked for: a tag name, or any tag ([True]) with an
    attribute to match. *)
Inductive query : Type :=
| ByName (name : string)
| ByAttr (attr : string) (pattern : string).

Definition found_by (q : query) (n : node) : bool :=
  match n, q with
  | Tag name _ _, ByName wanted => String.eqb name wanted
  | Tag _ attrs _, ByAttr attr pattern =>
      _matches (attrs_get attrs attr) pattern
  | _, _ => false
  end.

(** [tag.find_all(q)]: the tags below [tag] that match, in document order. *)
Fixpoint find_all (q : query) (tag : node) : list node :=
  match tag with
  | Tag _ _ contents =>
      flat_map
        (fun child =>
           (if found_by q child then [child] else []) ++ find_all q child)
        contents
  | _ => []
  end.

(** [tag] after every tag below it that [sel] selects has left the tree
    with all it contains ([decompose]). *)
Fixpoint decompose_where (sel : node -> bool) (tag : node) : node :=
  match tag with
  | Tag name attrs contents =>
      Tag name attrs
        (flat_map
           (fun child =>
              if sel child then [] else [decompose_where sel child])
           contents)
  | _ => tag
  end.

(** [for element in tag.find_all(q): element.decompose()]: [tag] is changed
    in place; the result is [tag] as it is after the loop. *)
Definition decompose_all (q : query) (tag : node) : node :=
  decompose_where (found_by q) tag.

(** [tag.select(name)] for a type selector *)
Definition select (tag : node) (name : string) : list node :=
  find_all (ByName name) tag.

(** [tag.get_text()]: the text strings below [tag], concatenated. *)
Fixpoint get_text (tag : node) : string :=
  match tag with
  | NavigableString s => s
  | Comment _ => EmptyString
  | Tag _ _ contents => String.concat EmptyString (map get_text contents)
  end.

(** [tag.contents] *)
Definition contents (tag : node) : list node :=
  match tag with
  | Tag _ _ contents => contents
  | _ => []
  end.

(** [soup.body] of a parsed document: the first [body] tag, if any. *)
Definition body (soup : node) : option node :=
  hd_error (find_all (ByName "body") soup).

End Soup.
Export Soup.

(** ** SelenoidWebScraper: extraction and [scrape] *)

Definition unwanted_patterns : list string :=
  [ "ads"; "advertisement"; "cookie"; "cookies"; "cookie-banner";
    "branda-cookie-notice"; "banner"; "widget"; "notice"; "cookie-notice";
    "footer"; "subs"; "header"; "sidemenu"; "sidebar"; "bar"; "menu";
    "navbar"; "nav"; "navigation"; "tracker"; "tracking"; "promo";
    "promotion"; "sponsor"; "sponsored"; "ad-slot"; "ad-wrapper";
    "ad-container"; "adbox"; "popup"; "pop-up"; "social"; "share"; "sharing";
    "comments"; "disqus"; "fb"; "twitter"; "instagram"; "widgetbox"; "login";
    "signup"; "subscribe"; "related"; "gallery"; "breadcrumb"; "bottom";
    "label"; "modal-content" ].

Definition direct_tags_to_remove : list string :=
  [ "header"; "footer"; "nav"; "script"; "style"; "form"; "button"; "iframe" ].

(** [_extract_text_from_paragraphs] *)
Definition _extract_text_from_paragraphs (paragraphs : list node) : string :=
  Str.join Str.newline (map (fun p => Str.strip (get_text p)) paragraphs).

(** The loops of [_remove_unwanted_elements], in the order the sets are
    written (the trees they leave do not depend on the order,
    [remove_unwanted_single_pass]). *)
Definition remove_tags (tags : list string) (soup : node) : node :=
  fold_left (fun soup tag => decompose_all (ByName tag) soup) tags soup.

Definition remove_patterns (patterns : list string) (soup : node) : node :=
  fold_left
    (fun soup pattern =>
       fold_left (fun soup attr => decompose_all (ByAttr attr pattern) soup)
         ["class"; "id"] soup)
    patterns soup.

(** [_remove_unwanted_elements]: changes [soup] in place; the result is
    [soup] afterwards. *)
Definition _remove_unwanted_elements (soup : node) : node :=
  remove_patterns unwanted_patterns (remove_tags direct_tags_to_remove soup).

(** Every query the loops of [_remove_unwanted_elements] make. *)
Definition unwanted_queries : list query :=
  map ByName direct_tags_to_remove
  ++ flat_map (fun pattern => [ByAttr "class" pattern; ByAttr "id" pattern])
       unwanted_patterns.

(** A tag that one of the loops removes. *)
Definition unwanted (n : node) : bool :=
  existsb (fun q => found_by q n) unwanted_queries.

(** The text [_extract_paragraphs] builds first, from the [p] and the [span]
    tags of a body. *)
Definition primary_text (body : node) : string :=
  Str.strip
    (_extract_text_from_paragraphs (select body "p" ++ select body "span")).

Definition has_space (s : string) : bool :=
  existsb (Ascii.eqb " ") (list_ascii_of_string s).

(** The characters of a string. *)
Definition chars (s : string) : list ascii := list_ascii_of_string s.

Section Extraction.

(** [BeautifulSoup(page_source, "lxml")]: the parser is a library. *)
Variable BeautifulSoup : string -> node.

(** [_extract_paragraphs].  A tag is true whatever it contains, so
    [if body:] tests that there is a body. *)
Definition _extract_paragraphs (page_source : option string)
  : option string :=
  match page_source with
  | None => None
  | Some EmptyString => None
  | Some page_source =>
      let soup := BeautifulSoup page_source in
      match body soup with
      | Some body =>
          let body := _remove_unwanted_elements body in
          let all_elements := select body "p" ++ select body "span" in
          let text :=
            Str.strip (_extract_text_from_paragraphs all_elements) in
          let text :=
            if String.length text <? 1000 then Str.strip (get_text body)
            else text in
          Some text
      | None => None
      end
  end.

Variable env : Env.
Variable self : SelenoidWebScraper.

(** [scrape] *)
Definition scrape (url : string) : M (option string) :=
  page_source <- _fetch_url env self url ;;
  if match page_source with
     | Some s => String.eqb s NOT_RESPONDING
     | None => false
     end
  then ret page_source
  else
    let text_from_paragraphs := _extract_paragraphs page_source in
    match text_from_paragraphs with
    | Some (String _ _ as text) =>
        let content_length := String.length text in
        print ("Content-Length: " ++ Str.of_nat content_length)%string ;;
        if content_length <? 1000 then
          print "Content-Length less than 1000 symbols." ;;
          ret (Some NOT_RELEVANT)
        else
          print ("Page source with text fetched SUCCESS: " ++ url)%string ;;
          ret text_from_paragraphs
    | _ =>
        print ("Body source text is None: " ++ url)%string ;;
        ret None
    end.

End Extraction.

(** ** What is left of a tree and of its text *)

Definition is_tag (n : node) : bool :=
  match n with
  | Tag _ _ _ => true
  | _ => false
  end.

(** The tags below a node, in document order ([tag.find_all(True)]). *)
Fixpoint descendants (n : node) : list node :=
  match n with
  | Tag _ _ contents =>
      flat_map
        (fun child =>
           (if is_tag child then [child] else []) ++ descendants child)
        contents
  | _ => []
  end.

(** The tags below a node that [sel] does not select and that are not inside
    a tag it selects. *)
Fixpoint kept (sel : node -> bool) (n : node) : list node :=
  match n with
  | Tag _ _ contents =>
      flat_map
        (fun child =>
           if sel child then []
           else (if is_tag child then [child] else []) ++ kept sel child)
        contents
  | _ => []
  end.

(** The text strings below a node, in document order. *)
Fixpoint texts (n : node) : list string :=
  match n with
  | NavigableString s => [s]
  | Comment _ => []
  | Tag _ _ contents => flat_map texts contents
  end.


(** The number of tags of a tree, its root included. *)
Fixpoint count_tags (n : node) : nat :=
  match n with
  | Tag _ _ contents => S (list_sum (map count_tags contents))
  | _ => 0
  end.

(** The lengths of the texts of a list of nodes, added up. *)
Definition lengths (l : list node) : nat :=
  list_sum (map (fun e => String.length (get_text e)) l).

(** The values of an attribute: the values of a multi-valued one, the value
    of a single-valued one, none when the attribute is absent. *)
Definition attr_values (value : option attr_value) : list string :=
  match value with
  | Some (AttrList items) => items
  | Some (AttrString s) => [s]
  | None => []
  end.

(** The rule of the specification, by equality: a tag is on the denylist
    when its name is one of the tag names to remove, or when a token of the
    list is equal to one of the values of its [class] or to its [id]. *)
Definition on_denylist (n : node) : bool :=
  match n with
  | Tag name attrs _ =>
      existsb (String.eqb name) direct_tags_to_remove
      || existsb
           (fun token =>
              existsb (String.eqb token)
                (attr_values (attrs_get attrs "class")
                 ++ attr_values (attrs_get attrs "id")))
           unwanted_patterns
  | _ => false
  end.


(** [l] is [l'] with some of its elements left out. *)
Inductive subseq {A : Type} : list A -> list A -> Prop :=
| subseq_nil : subseq [] []
| subseq_skip (x : A) (l l' : list A) : subseq l l' -> subseq l (x :: l')
| subseq_take (x : A) (l l' : list A) :
    subseq l l' -> subseq (x :: l) (x :: l').

(** No [p] and no [span] below [body] lies inside another [p] or [span]. *)
Definition flat_paragraphs (body : node) : Prop :=
  forall e,
    In e (select body "p" ++ select body "span") ->
    select e "p" = [] /\ select e "span" = [].

(** The page source is at least as long as the text of the body it was
    parsed into, with one character more for each tag of that body: the
    parser has added no tag of its own and has not turned a character
    reference into a longer text. *)
Definition holds (page_source : string) (body : node) : Prop :=
  String.length (get_text body) + count_tags body
  <= String.length page_source.

(** ** A parser for the example documents

    The examples below are documents made of start tags with quoted
    attributes, end tags and text, properly nested, with an explicit [body],
    without character references, comments or void elements.  [Lite] reads
    such a document into the tree that [BeautifulSoup(_, "lxml")] gives under
    its [body] tag.  The statements about every document take the parser as
    given and do not depend on [Lite]. *)

Module Lite.

Inductive token : Type :=
| TStart (name : string) (attrs : attrs_t)
| TEnd (name : string)
| TText (s : string).

(** Split at the first occurrence of [stop], which is dropped. *)
Fixpoint split_at (stop : ascii) (s : string) : string * string :=
  match s with
  | EmptyString => (EmptyString, EmptyString)
  | String c rest =>
      if Ascii.eqb c stop then (EmptyString, rest)
      else let (before, after) := split_at stop rest in
           (String c before, after)
  end.

(** The text up to the next ["<"], which stays. *)
Fixpoint text_run (s : string) : string * string :=
  match s with
  | EmptyString => (EmptyString, EmptyString)
  | String c rest =>
      if Ascii.eqb c "<" then (EmptyString, s)
      else let (before, after) := text_run rest in
           (String c before, after)
  end.

(** The whitespace-separated words of an attribute value. *)
Fixpoint words (current : string) (s : string) : list string :=
  let flush := match current with EmptyString => [] | _ => [current] end in
  match s with
  | EmptyString => flush
  | String c rest =>
      if Str.isspace c then flush ++ words EmptyString rest
      else words (current ++ String c EmptyString) rest
  end.

Definition multi_valued (attr : string) : bool :=
  existsb (String.eqb attr) ["class"; "accesskey"; "dropzone"].

(** [name='value' name='value' ...]: the character after [=] opens the
    value and closes it. *)
Fixpoint attributes (fuel : nat) (s : string) : attrs_t :=
  match fuel with
  | O => []
  | S fuel' =>
      match Str.lstrip s with
      | EmptyString => []
      | s' =>
          let (name, after) := split_at "=" s' in
          match after with
          | EmptyString => [(name, AttrString EmptyString)]
          | String quote quoted =>
              let (value, rest) := split_at quote quoted in
              (name,
               if multi_valued name then AttrList (words EmptyString value)
               else AttrString value)
                :: attributes fuel' rest
          end
      end
  end.

Definition tag_token (inside : string) : token :=
  match inside with
  | String "/" name => TEnd name
  | _ =>
      let (name, rest) := split_at " " inside in
      TStart name (attributes (String.length rest) rest)
  end.

Fixpoint tokens (fuel : nat) (s : string) : list token :=
  match fuel with
  | O => []
  | S fuel' =>
      match s with
      | EmptyString => []
      | String "<" rest =>
          let (inside, after) := split_at ">" rest in
          tag_token inside :: tokens fuel' after
      | _ =>
          let (text, after) := text_run s in
          TText text :: tokens fuel' after
      end
  end.

(** The nodes up to the end tag that closes the open element, and the
    tokens after it. *)
Fixpoint nodes (fuel : nat) (ts : list token) : list node * list token :=
  match fuel with
  | O => ([], ts)
  | S fuel' =>
      match ts with
      | [] => ([], [])
      | TText s :: ts' =>
          let (siblings, rest) := nodes fuel' ts' in
          (NavigableString s :: siblings, rest)
      | TEnd _ :: ts' => ([], ts')
      | TStart name attrs :: ts' =>
          let (contents, rest) := nodes fuel' ts' in
          let (siblings, rest') := nodes fuel' rest in
          (Tag name attrs contents :: siblings, rest')
      end
  end.

Definition BeautifulSoup (markup : string) : node :=
  let ts := tokens (String.length markup) markup in
  Tag "[document]" [] (fst (nodes (length ts) ts)).

End Lite.

(** ** Reading a trace *)

Definition is_get (e : event) : bool :=
  match e with
  | Get _ _ _ => true
  | _ => false
  end.

(** The navigation attempts made so far. *)
Definition attempts (t : trace) : nat := length (filter is_get t).

(** The drivers a navigation was attempted on, in order. *)
Fixpoint navigated (t : trace) : list WebDriver :=
  match t with
  | [] => []
  | Get d _ _ :: rest => d :: navigated rest
  | _ :: rest => navigated rest
  end.

(** The drivers [quit] was called on, in order. *)
Fixpoint quits (t : trace) : list WebDriver :=
  match t with
  | [] => []
  | Quit d _ :: rest => d :: quits rest
  | _ :: rest => quits rest
  end.

(** The drivers created, in order. *)
Fixpoint sessions (t : trace) : list WebDriver :=
  match t with
  | [] => []
  | NewSession _ _ (Ok d) :: rest => d :: sessions rest
  | _ :: rest => sessions rest
  end.

(** The created drivers that [quit] was never called on. *)
Definition left_open (t : trace) : list WebDriver :=
  filter (fun d => negb (existsb (Nat.eqb d) (quits t))) (sessions t).

(** The life-cycle calls of a trace: navigation attempts, session releases
    and session creations, in order. *)
Inductive step : Type :=
| Attempt (ok : bool)
| Release
| Create.

Fixpoint steps (t : trace) : list step :=
  match t with
  | [] => []
  | Get _ _ (Ok _) :: rest => Attempt true :: steps rest
  | Get _ _ (Err _) :: rest => Attempt false :: steps rest
  | Quit _ _ :: rest => Release :: steps rest
  | NewSession _ _ (Ok _) :: rest => Create :: steps rest
  | _ :: rest => steps rest
  end.

(** ** Conditions on the endpoint *)

(** [quit] answers, or fails within the [WebDriverException] family. *)
Definition quit_recoverable (r : reply unit) : Prop :=
  match r with
  | Ok _ => True
  | Err e => is_WebDriverException e = true
  end.

(** A navigation failure the retry loop recovers from: an exception of the
    [WebDriverException] family. *)
Definition fails_transiently (r : reply unit) : Prop :=
  exists e, r = Err e /\ is_WebDriverException e = true.

(** Releasing a session and opening a new one both complete. *)
Definition replacement_completes (env : Env) (self : SelenoidWebScraper)
  : Prop :=
  (forall t d, quit_recoverable (on_quit env t d))
  /\ (forall t, exists d, snd (start env self t) = Returned d).

(** The life-cycle calls of [n] failed attempts, each followed by the
    replacement of the session. *)
Fixpoint failed_rounds (n : nat) : list step :=
  match n with
  | O => []
  | S n' => [Attempt false; Release; Create] ++ failed_rounds n'
  end.

(** The life-cycle calls of [n] failed attempts when the last one is the last
    allowed. *)
Definition exhausted_rounds (n : nat) : list step :=
  match n with
  | O => []
  | S n' => failed_rounds n' ++ [Attempt false]
  end.

(** The life-cycle calls of a trace with the driver each of them concerns. *)
Inductive session_call : Type :=
| Attempted (d : WebDriver) (ok : bool)
| Released (d : WebDriver)
| Created (d : WebDriver).

Fixpoint session_calls (t : trace) : list session_call :=
  match t with
  | [] => []
  | Get d _ (Ok _) :: rest => Attempted d true :: session_calls rest
  | Get d _ (Err _) :: rest => Attempted d false :: session_calls rest
  | Quit d _ :: rest => Released d :: session_calls rest
  | NewSession _ _ (Ok d) :: rest => Created d :: session_calls rest
  | _ :: rest => session_calls rest
  end.

(** What the endpoint does at one point of a run, [t], where [driver] is the
    session in use: the navigation on [target] fails within the
    [WebDriverException] family, the release of [driver] completes, and so
    does the set-up of a new session, [driver'], which leaves the trace
    [t']. *)
Definition failed_round (env : Env) (self : SelenoidWebScraper)
    (target : WebDriver) (url : string) (t : trace) (driver : WebDriver)
    (t' : trace) (driver' : WebDriver) : Prop :=
  exists e,
    on_get env t target url = Err e
    /\ is_WebDriverException e = true
    /\ quit_recoverable (on_quit env (t ++ [Get target url (Err e)]) driver)
    /\ start env self (fst (stop env driver (t ++ [Get target url (Err e)])))
       = (t', Returned driver').

(** [n] such points in a row, from [t] with [driver] to [t'] with
    [driver']. *)
Fixpoint rounds (env : Env) (self : SelenoidWebScraper) (target : WebDriver)
    (url : string) (n : nat) (t : trace) (driver : WebDriver) (t' : trace)
    (driver' : WebDriver) : Prop :=
  match n with
  | O => t' = t /\ driver' = driver
  | S n' =>
      exists t1 d1,
        failed_round env self target url t driver t1 d1
        /\ rounds env self target url n' t1 d1 t' driver'
  end.

(** The life-cycle calls of [n] failed attempts on [target], each followed by
    the release of the session in use and the creation of the next driver:
    [driver] is in use first, [next] is the first driver to be created. *)
Fixpoint replaced_rounds (target driver next : WebDriver) (n : nat)
  : list session_call :=
  match n with
  | O => []
  | S n' =>
      [Attempted target false; Released driver; Created next]
        ++ replaced_rounds target next (S next) n'
  end.

(** ** Endpoints for the examples *)

Module Fake.

Definition READY_STATE : string := "return document.readyState".

(** Every call succeeds; every page is loaded and has source [source]. *)
Definition healthy (source : string) : Env :=
  {| on_new_session := fun _ _ _ => Ok tt;
     on_set_page_load_timeout := fun _ _ _ => Ok tt;
     on_execute_script :=
       fun _ _ script =>
         Ok (if String.eqb script READY_STATE then "complete" else "null");
     on_get := fun _ _ _ => Ok tt;
     on_page_source := fun _ _ => Ok source;
     on_quit := fun _ _ => Ok tt;
     random_choice := fun _ _ => 0;
     random_swap := fun _ => false;
     polls_left := fun _ => 20 |}.

(** [base], except that the n-th navigation attempt (from 0) of the run
    answers [nav n]. *)
Definition navigating (nav : nat -> reply unit) (base : Env) : Env :=
  {| on_new_session := on_new_session base;
     on_set_page_load_timeout := on_set_page_load_timeout base;
     on_execute_script := on_execute_script base;
     on_get := fun t _ _ => nav (attempts t);
     on_page_source := on_page_source base;
     on_quit := on_quit base;
     random_choice := random_choice base;
     random_swap := random_swap base;
     polls_left := polls_left base |}.

(** [base], except that the n-th session request (from 0) answers
    [accept n]. *)
Definition creating (accept : nat -> reply unit) (base : Env) : Env :=
  {| on_new_session :=
       fun t _ _ => accept (length (filter
                              (fun e => match e with
                                        | NewSession _ _ _ => true
                                        | _ => false
                                        end) t));
     on_set_page_load_timeout := on_set_page_load_timeout base;
     on_execute_script := on_execute_script base;
     on_get := on_get base;
     on_page_source := on_page_source base;
     on_quit := on_quit base;
     random_choice := random_choice base;
     random_swap := random_swap base;
     polls_left := polls_left base |}.

(** [base], except that every [quit] answers [r]. *)
Definition quitting (r : reply unit) (base : Env) : Env :=
  {| on_new_session := on_new_session base;
     on_set_page_load_timeout := on_set_page_load_timeout base;
     on_execute_script := on_execute_script base;
     on_get := on_get base;
     on_page_source := on_page_source base;
     on_quit := fun _ _ => r;
     random_choice := random_choice base;
     random_swap := random_swap base;
     polls_left := polls_left base |}.

(** [base], except that every [set_page_load_timeout] answers [r]. *)
Definition configuring (r : reply unit) (base : Env) : Env :=
  {| on_new_session := on_new_session base;
     on_set_page_load_timeout := fun _ _ _ => r;
     on_execute_script := on_execute_script base;
     on_get := on_get base;
     on_page_source := on_page_source base;
     on_quit := on_quit base;
     random_choice := random_choice base;
     random_swap := random_swap base;
     polls_left := polls_left base |}.

(** A session is live from its creation to the first [quit] on it. *)
Definition live (t : trace) (d : WebDriver) : bool :=
  existsb (Nat.eqb d) (sessions t) && negb (existsb (Nat.eqb d) (quits t)).

Definition gone {A} : reply A :=
  Err (InvalidSessionIdException "invalid session id").

(** [base], except that a command on a session that is not live answers
    "invalid session id", as a Selenium server does. *)
Definition strict (base : Env) : Env :=
  {| on_new_session := on_new_session base;
     on_set_page_load_timeout :=
       fun t d n =>
         if live t d then on_set_page_load_timeout base t d n else gone;
     on_execute_script :=
       fun t d s => if live t d then on_execute_script base t d s else gone;
     on_get := fun t d u => if live t d then on_get base t d u else gone;
     on_page_source :=
       fun t d => if live t d then on_page_source base t d else gone;
     on_quit := fun t d => if live t d then on_quit base t d else gone;
     random_choice := random_choice base;
     random_swap := random_swap base;
     polls_left := polls_left base |}.

Definition timeout {A} : reply A := Err (TimeoutException "timeout").

Definition scraper : SelenoidWebScraper :=
  {| USER_AGENTS := _USER_AGENTS;
     command_executor := "http://selenoid:4444/wd/hub" |}.

End Fake.

(** ** What a computation adds to the trace *)

(** [m] only adds events to the trace, and every event it adds satisfies
    [P]. *)
Definition appends {A} (P : event -> Prop) (m : M A) : Prop :=
  forall t, exists ev, fst (m t) = t ++ ev /\ Forall P ev.

(** [m] ends: the value it returns satisfies [R], an exception that leaves
    it satisfies [C]. *)
Definition ends_with {A} (C : exn -> Prop) (R : A -> Prop) (m : M A) : Prop :=
  forall t,
    match snd (m t) with
    | Returned a => R a
    | Raised e => C e
    | Diverged => False
    end.

Definition raises_within {A} (C : exn -> Prop) (m : M A) : Prop :=
  ends_with C (fun _ => True) m.

(** [options.preferences[key]] *)
Fixpoint get_preference (key : string) (prefs : list (string * pref))
  : option pref :=
  match prefs with
  | [] => None
  | (k, v) :: rest => if String.eqb k key then Some v else get_preference key rest
  end.

Definition is_print (e : event) : bool :=
  match e with
  | Print _ => true
  | _ => false
  end.

(** The scripts executed, with their drivers, in order. *)
Fixpoint scripts (t : trace) : list (WebDriver * string) :=
  match t with
  | [] => []
  | ExecuteScript d script _ :: rest => (d, script) :: scripts rest
  | _ :: rest => scripts rest
  end.

Definition HIDE_WEBDRIVER : string :=
  "Object.defineProperty(navigator, 'webdriver', {get: () => undefined})".
Definition SCROLL_DOWN : string :=
  "window.scrollTo(0, document.body.scrollHeight);".
Definition SCROLL_UP : string :=
  "window.scrollTo(document.body.scrollHeight, 0);".

(** The calls a [scrape] of [url] by [self] may make. *)
Definition scrape_event (self : SelenoidWebScraper) (url : string)
    (e : event) : Prop :=
  match e with
  | NewSession executor opts _ =>
      executor = command_executor self
      /\ In "--headless" (arguments opts)
      /\ exists agent,
          In agent (USER_AGENTS self)
          /\ get_preference "general.useragent.override" (preferences opts)
             = Some (PStr agent)
  | SetPageLoadTimeout _ seconds _ => seconds = 20
  | ExecuteScript _ script _ =>
      In script [HIDE_WEBDRIVER; SCROLL_DOWN; SCROLL_UP; Fake.READY_STATE]
  | Get _ u _ => u = url
  | PageSource _ _ => True
  | Quit _ _ => True
  | Print _ => True
  end.

(** ** The router *)

Section Router.

(** [config.SELENOID_COMMAND_EXECUTOR], read from the environment. *)
Variable SELENOID_COMMAND_EXECUTOR : string.
Variable BeautifulSoup : string -> node.
Variable env : Env.

Definition GREETING_URL : string :=
  "https://www.pravda.com.ua/rus/news/2023/11/23/7430013/".

(** [SelenoidWebScraper()] with the default arguments of [__init__]. *)
Definition default_scraper : SelenoidWebScraper :=
  {| USER_AGENTS := _USER_AGENTS;
     command_executor := SELENOID_COMMAND_EXECUTOR |}.

(** [routers.greeting]: the answer is a dictionary with one key. *)
Definition greeting : M (list (string * string)) :=
  print "Greeting endpoint accessed" ;;
  let scraper := default_scraper in
  _ <- scrape BeautifulSoup env scraper GREETING_URL ;;
  ret [("HI!", "I`m ScraperAPI and I am working with Selenoid!")].

End Router.

(** The calls of a fetch that concern the page go to driver [d]. *)
Definition page_event (d : WebDriver) (e : event) : Prop :=
  match e with
  | Get d' _ _ => d' = d
  | PageSource d' _ => d' = d
  | ExecuteScript d' script _ => script = Fake.READY_STATE -> d' = d
  | _ => True
  end.

(** The calls of the set-up of a session: none concerns the page. *)
Definition setup_event (e : event) : Prop :=
  match e with
  | Get _ _ _ => False
  | PageSource _ _ => False
  | ExecuteScript _ script _ => script <> Fake.READY_STATE
  | _ => True
  end.

(** Every failure of the endpoint is of the [WebDriverException] family. *)
Definition in_family {A} (r : reply A) : Prop :=
  match r with
  | Ok _ => True
  | Err e => is_WebDriverException e = true
  end.

Definition fails_in_family (env : Env) : Prop :=
  (forall t c o, in_family (on_new_session env t c o))
  /\ (forall t d n, in_family (on_set_page_load_timeout env t d n))
  /\ (forall t d s, in_family (on_execute_script env t d s))
  /\ (forall t d u, in_family (on_get env t d u))
  /\ (forall t d, in_family (on_page_source env t d))
  /\ (forall t d, in_family (on_quit env t d)).



(** * Properties *)

Ltac endpoint_answers :=
  repeat match goal with
         | |- context [on_new_session ?e ?t ?a ?b] =>
             destruct (on_new_session e t a b) as [[]|?]; simpl
         | |- context [on_set_page_load_timeout ?e ?t ?d ?n] =>
             destruct (on_set_page_load_timeout e t d n) as [[]|?]; simpl
         | |- context [on_execute_script ?e ?t ?d ?s] =>
             destruct (on_execute_script e t d s) as [?|?]; simpl
         | |- context [random_swap ?e ?t] =>
             destruct (random_swap e t); simpl
         | |- _ => progress (unfold bind, ret; simpl)
         end.

(** ** Traces *)

Lemma steps_app (a b : trace) : steps (a ++ b) = steps a ++ steps b.
Proof.
  induction a as [|e a IH]; [reflexivity|].
  destruct e as [? ? [?|?]| | |? ? [?|?]| | |]; simpl; rewrite IH; reflexivity.
Qed.

Lemma attempts_app (a b : trace) : attempts (a ++ b) = attempts a + attempts b.
Proof. unfold attempts. now rewrite filter_app, length_app. Qed.

Lemma quits_app (a b : trace) : quits (a ++ b) = quits a ++ quits b.
Proof.
  induction a as [|e a IH]; [reflexivity|].
  destruct e; simpl; rewrite IH; reflexivity.
Qed.


(** ** [stop] and [start] *)

Section SessionFacts.

Variable env : Env.
Variable self : SelenoidWebScraper.

Lemma catches_WebDriverException (ex : exn) :
  _safe_get_catches ex = is_WebDriverException ex.
Proof. destruct ex; reflexivity. Qed.

(** What [stop] does, by the answer to [quit]. *)
Lemma stop_run (d : WebDriver) (t : trace) :
  stop env d t =
  match on_quit env t d with
  | Ok _ => (t ++ [Quit d (on_quit env t d)], Returned tt)
  | Err e =>
      if is_WebDriverException e then
        (t ++ [Quit d (on_quit env t d)]
           ++ [Print
                 "Browser session was not found. It might have been closed already."],
         Returned tt)
      else (t ++ [Quit d (on_quit env t d)], Raised e)
  end.
Proof.
  unfold stop, try_except, quit, call, print. cbn [except].
  destruct (on_quit env t d) as [[]|e]; [reflexivity|].
  destruct e; simpl; rewrite <- ?app_assoc; reflexivity.
Qed.

(** [stop] calls [quit] once and nothing else on the endpoint. *)
Lemma stop_trace (d : WebDriver) (t : trace) :
  exists evs, fst (stop env d t) = t ++ evs
              /\ steps evs = [Release] /\ attempts evs = 0
              /\ quits evs = [d] /\ sessions evs = [].
Proof.
  rewrite stop_run.
  destruct (on_quit env t d) as [[]|e]; [|destruct (is_WebDriverException e)];
    eexists; (split; [reflexivity|]); repeat split.
Qed.

Lemma stop_returns (d : WebDriver) (t : trace) :
  quit_recoverable (on_quit env t d) -> snd (stop env d t) = Returned tt.
Proof.
  rewrite stop_run. unfold quit_recoverable.
  destruct (on_quit env t d) as [[]|e]; [reflexivity|].
  now intros ->.
Qed.

Ltac answers :=
  repeat match goal with
         | |- context [on_new_session ?e ?t ?a ?b] =>
             destruct (on_new_session e t a b) as [[]|?]; simpl
         | |- context [on_set_page_load_timeout ?e ?t ?d ?n] =>
             destruct (on_set_page_load_timeout e t d n) as [[]|?]; simpl
         | |- context [on_execute_script ?e ?t ?d ?s] =>
             destruct (on_execute_script e t d s) as [?|?]; simpl
         | |- context [random_swap ?e ?t] =>
             destruct (random_swap e t); simpl
         | |- _ => progress (unfold bind, ret; simpl)
         end.

(** [start] never navigates and never quits; when it returns it has created
    exactly one driver, the one it returns. *)
Lemma start_trace (t : trace) :
  exists evs, fst (start env self t) = t ++ evs
              /\ attempts evs = 0 /\ quits evs = []
              /\ snd (start env self t) <> Diverged
              /\ forall d, snd (start env self t) = Returned d ->
                           steps evs = [Create] /\ sessions evs = [created t].
Proof.
  unfold start, _create_firefox_driver, get_random_user_agent,
    random_choice_of, _imitate_user_behavior, random_sample, Remote,
    set_page_load_timeout, execute_script, bind, call, ret.
  destruct (USER_AGENTS self) as [|agent agents]; simpl.
  - exists []. rewrite app_nil_r. repeat split; discriminate.
  - answers; rewrite <- ?app_assoc;
      (eexists; split; [reflexivity|]);
      repeat split; try discriminate; try reflexivity.
Qed.

End SessionFacts.

(** ** The retry loop *)

Section RetryFacts.

Variable env : Env.
Variable self : SelenoidWebScraper.
Variable target : WebDriver.
Variable url : string.

Let method : M unit := get env target url.

(** One turn of the loop. *)
Lemma safe_get_turn (fuel retries : nat) (driver : WebDriver)
    (last : option exn) (t : trace) :
  retries < 3 ->
  _safe_get_while env self (S fuel) method retries driver last t =
  let t1 := t ++ [Get target url (on_get env t target url)] in
  match on_get env t target url with
  | Ok _ => (t1, Returned true)
  | Err e =>
      if is_WebDriverException e then
        if retries + 1 <? 3 then
          match stop env driver t1 with
          | (t2, Returned _) =>
              match start env self t2 with
              | (t3, Returned driver') =>
                  _safe_get_while env self fuel method (retries + 1)
                    driver' (Some e) t3
              | (t3, Raised e') => (t3, Raised e')
              | (t3, Diverged) => (t3, Diverged)
              end
          | (t2, Raised e') => (t2, Raised e')
          | (t2, Diverged) => (t2, Diverged)
          end
        else
          _safe_get_while env self fuel method (retries + 1) driver
            (Some e) t1
      else (t1, Raised e)
  end.
Proof.
  intros Hlt. apply Nat.ltb_lt in Hlt.
  cbn [_safe_get_while]. rewrite Hlt.
  unfold bind at 1. unfold try_except, method, get, call, bind at 1.
  cbn [ret except]. fold method.
  destruct (on_get env t target url) as [[]|e]; [reflexivity|].
  rewrite catches_WebDriverException.
  destruct (is_WebDriverException e); [|reflexivity].
  cbn zeta.
  destruct (retries + 1 <? 3); [|reflexivity].
  unfold bind.
  destruct (stop env driver _) as [t2 [[]| |]]; try reflexivity.
  destruct (start env self t2) as [t3 [d'| |]]; reflexivity.
Qed.

(** The loop is over when three attempts have failed. *)
Lemma safe_get_done (fuel retries : nat) (driver : WebDriver)
    (last : option exn) (t : trace) :
  3 <= retries ->
  _safe_get_while env self fuel method retries driver last t =
  (t ++ [Print ("Max retries reached. Last error in _safe_get: "
                  ++ str_of_last last)%string],
   Returned false).
Proof.
  intros Hge. apply Nat.ltb_ge in Hge.
  destruct fuel; cbn [_safe_get_while]; rewrite Hge; reflexivity.
Qed.

Lemma safe_get_no_fuel (retries : nat) (driver : WebDriver)
    (last : option exn) (t : trace) :
  retries < 3 ->
  _safe_get_while env self 0 method retries driver last t = (t, Diverged).
Proof.
  intros Hlt. apply Nat.ltb_lt in Hlt.
  cbn [_safe_get_while]. rewrite Hlt. reflexivity.
Qed.



(** With fuel for the turns that are left, the loop ends. *)
Lemma safe_get_while_total (fuel : nat) :
  forall retries driver last t,
    3 - retries <= fuel ->
    snd (_safe_get_while env self fuel method retries driver last t)
    <> Diverged.
Proof.
  induction fuel as [|fuel IH]; intros retries driver last t Hfuel;
    (destruct (Nat.lt_ge_cases retries 3) as [Hlt|Hge];
     [|rewrite safe_get_done by assumption; discriminate]).
  - lia.
  - rewrite safe_get_turn by assumption. cbn zeta.
    destruct (on_get env t target url) as [[]|e]; [discriminate|].
    destruct (is_WebDriverException e); [|discriminate].
    destruct (retries + 1 <? 3).
    + pose proof (stop_run env driver (t ++ [Get target url (Err e)]))
        as Hstop.
      destruct (stop env driver _) as [t2 o2].
      assert (o2 <> Diverged) as Ho2.
      { destruct (on_quit env _ driver) as [[]|e'];
          [|destruct (is_WebDriverException e')];
          inversion Hstop; discriminate. }
      destruct (start_trace env self t2) as (_ & _ & _ & _ & Hs & _).
      destruct (start env self t2) as [t3 o3]. cbn [snd] in Hs.
      destruct o2 as [[]| |]; [|discriminate|contradiction].
      destruct o3 as [d'| |]; [|discriminate|contradiction].
      apply IH. lia.
    + apply IH. lia.
Qed.

(** A failed attempt that is not the last: the session is replaced and the
    loop goes on. *)
Lemma safe_get_retry (fuel retries : nat) (driver : WebDriver)
    (last : option exn) (t : trace) :
  retries + 1 < 3 ->
  replacement_completes env self ->
  fails_transiently (on_get env t target url) ->
  exists e ev driver',
    on_get env t target url = Err e
    /\ _safe_get_while env self (S fuel) method retries driver last t
       = _safe_get_while env self fuel method (retries + 1) driver'
           (Some e) (t ++ ev)
    /\ steps ev = [Attempt false; Release; Create]
    /\ attempts ev = 1.
Proof.
  intros Hlt [Hquit Hstart] (e & He & Hwd).
  rewrite safe_get_turn by lia. cbn zeta. rewrite He, Hwd.
  apply Nat.ltb_lt in Hlt. rewrite Hlt.
  set (t1 := t ++ [Get target url (Err e)]).
  destruct (stop_trace env driver t1) as (ev1 & E1 & S1 & A1 & _).
  pose proof (stop_returns env driver t1 (Hquit t1 driver)) as R1.
  destruct (stop env driver t1) as [t2 o2]. cbn [fst snd] in E1, R1.
  subst o2.
  destruct (start_trace env self t2) as (ev2 & E2 & A2 & _ & _ & S2).
  destruct (Hstart t2) as [d' R2].
  destruct (start env self t2) as [t3 o3]. cbn [fst snd] in E2, R2, S2.
  subst o3. destruct (S2 d' eq_refl) as [S2' _].
  exists e, ([Get target url (Err e)] ++ ev1 ++ ev2), d'.
  split; [reflexivity|]. split; [|split].
  - subst t3 t2 t1. now rewrite <- !app_assoc.
  - rewrite !steps_app, S1, S2'. reflexivity.
  - rewrite !attempts_app, A1, A2. reflexivity.
Qed.

(** The navigation fails on every attempt: the loop gives up after the
    attempts that are left, without replacing the session after the last. *)
Lemma safe_get_while_exhausts (left : nat) :
  forall fuel retries driver last t,
    retries + left = 3 ->
    left <= fuel ->
    replacement_completes env self ->
    (forall t' d u, fails_transiently (on_get env t' d u)) ->
    exists ev,
      _safe_get_while env self fuel method retries driver last t
      = (t ++ ev, Returned false)
      /\ steps ev = exhausted_rounds left
      /\ attempts ev = left.
Proof.
  induction left as [|left IH];
    intros fuel retries driver last t Hsum Hfuel Hrep Hfail.
  - rewrite safe_get_done by lia.
    eexists. split; [reflexivity|]. split; reflexivity.
  - destruct fuel as [|fuel]; [lia|].
    destruct left as [|left].
    + destruct (Hfail t target url) as (e & He & Hwd).
      rewrite safe_get_turn by lia. cbn zeta. rewrite He, Hwd.
      replace (retries + 1 <? 3) with false
        by (symmetry; apply Nat.ltb_ge; lia).
      rewrite safe_get_done by lia.
      eexists. split; [now rewrite <- app_assoc|]. split; reflexivity.
    + destruct (safe_get_retry fuel retries driver last t)
        as (e & ev & d' & He & Hrun & Hsteps & Hatt);
        [lia|assumption|apply Hfail|].
      destruct (IH fuel (retries + 1) d' (Some e) (t ++ ev))
        as (ev' & Hrun' & Hsteps' & Hatt');
        [lia|lia|assumption|assumption|].
      exists (ev ++ ev'). rewrite Hrun, Hrun'.
      split; [now rewrite app_assoc|]. split.
      * rewrite steps_app, Hsteps, Hsteps'. reflexivity.
      * rewrite attempts_app, Hatt, Hatt'. lia.
Qed.

End RetryFacts.

(** ** Strings *)

Lemma chars_append (a b : string) : chars (a ++ b) = chars a ++ chars b.
Proof.
  induction a as [|c a IH]; [reflexivity|].
  change (c :: chars (a ++ b) = c :: chars a ++ chars b). now rewrite IH.
Qed.

Lemma length_append (a b : string) :
  String.length (a ++ b) = String.length a + String.length b.
Proof. induction a as [|c a IH]; [reflexivity|]. cbn. now rewrite IH. Qed.

Lemma lstrip_chars (s : string) (c : ascii) :
  In c (chars (Str.lstrip s)) -> In c (chars s).
Proof.
  induction s as [|x s IH]; [trivial|]. cbn [Str.lstrip].
  destruct (Str.isspace x); [right; auto|trivial].
Qed.

Lemma rstrip_chars (s : string) (c : ascii) :
  In c (chars (Str.rstrip s)) -> In c (chars s).
Proof.
  induction s as [|x s IH]; [trivial|]. cbn [Str.rstrip].
  destruct (Str.rstrip s) as [|y r].
  - destruct (Str.isspace x); cbn; tauto.
  - intros [->|H]; [now left|right; apply IH, H].
Qed.

Lemma strip_chars (s : string) (c : ascii) :
  In c (chars (Str.strip s)) -> In c (chars s).
Proof. intros H. now apply lstrip_chars, rstrip_chars. Qed.

Lemma lstrip_length (s : string) :
  String.length (Str.lstrip s) <= String.length s.
Proof.
  induction s as [|x s IH]; [trivial|]. cbn [Str.lstrip].
  destruct (Str.isspace x); cbn; lia.
Qed.

Lemma rstrip_length (s : string) :
  String.length (Str.rstrip s) <= String.length s.
Proof.
  induction s as [|x s IH]; [trivial|]. cbn [Str.rstrip].
  destruct (Str.rstrip s) as [|y r].
  - destruct (Str.isspace x); cbn; lia.
  - cbn in *. lia.
Qed.

Lemma strip_length (s : string) :
  String.length (Str.strip s) <= String.length s.
Proof.
  unfold Str.strip.
  pose proof (rstrip_length (Str.lstrip s)). pose proof (lstrip_length s). lia.
Qed.

Lemma join_chars (sep : string) (parts : list string) (c : ascii) :
  In c (chars (Str.join sep parts)) ->
  In c (chars sep) \/ exists part, In part parts /\ In c (chars part).
Proof.
  unfold Str.join.
  induction parts as [|p parts IH]; [intros []|].
  destruct parts as [|q parts].
  - cbn. intros H. right. exists p. auto.
  - cbn [String.concat]. rewrite !chars_append.
    rewrite !in_app_iff. intros [H|[H|H]].
    + right. exists p. split; [now left|assumption].
    + now left.
    + destruct (IH H) as [Hs|(part & Hin & Hc)]; [now left|].
      right. exists part. split; [now right|assumption].
Qed.

Lemma lstrip_twice (s : string) : Str.lstrip (Str.lstrip s) = Str.lstrip s.
Proof.
  induction s as [|c s IH]; [reflexivity|]. cbn [Str.lstrip].
  destruct (Str.isspace c) eqn:E; [exact IH|].
  cbn [Str.lstrip]. now rewrite E.
Qed.

Lemma rstrip_twice (s : string) : Str.rstrip (Str.rstrip s) = Str.rstrip s.
Proof.
  induction s as [|c s IH]; [reflexivity|]. cbn [Str.rstrip].
  destruct (Str.rstrip s) as [|y r] eqn:E.
  - destruct (Str.isspace c) eqn:Ec; [reflexivity|].
    cbn [Str.rstrip]. now rewrite Ec.
  - cbn [Str.rstrip] in IH |- *. rewrite IH. reflexivity.
Qed.

Lemma lstrip_fixed_head (c : ascii) (s : string) :
  Str.lstrip (String c s) = String c s -> Str.isspace c = false.
Proof.
  cbn [Str.lstrip]. destruct (Str.isspace c); [|reflexivity].
  intros H. pose proof (lstrip_length s) as Hlen.
  rewrite H in Hlen. cbn in Hlen. lia.
Qed.

Lemma lstrip_rstrip (s : string) :
  Str.lstrip s = s -> Str.lstrip (Str.rstrip s) = Str.rstrip s.
Proof.
  destruct s as [|c s]; [reflexivity|]. intros H.
  apply lstrip_fixed_head in H. cbn [Str.rstrip].
  destruct (Str.rstrip s); rewrite ?H; cbn [Str.lstrip]; now rewrite H.
Qed.

(** Stripping twice is stripping once. *)
Lemma strip_twice (s : string) : Str.strip (Str.strip s) = Str.strip s.
Proof.
  unfold Str.strip.
  rewrite (lstrip_rstrip (Str.lstrip s)) by apply lstrip_twice.
  apply rstrip_twice.
Qed.






Lemma append_associative (a b c : string) :
  ((a ++ b) ++ c = a ++ b ++ c)%string.
Proof. induction a as [|x a IH]; [reflexivity|]. cbn. now rewrite IH. Qed.

Lemma list_sum_cons (x : nat) (l : list nat) :
  list_sum (x :: l) = x + list_sum l.
Proof. reflexivity. Qed.

Lemma join_length (sep : string) (parts : list string) :
  String.length (Str.join sep parts)
  <= list_sum (map String.length parts)
     + (length parts - 1) * String.length sep.
Proof.
  unfold Str.join. induction parts as [|x parts IH]; [reflexivity|].
  destruct parts as [|y parts].
  - cbn. lia.
  - change (String.concat sep (x :: y :: parts))
      with (x ++ sep ++ String.concat sep (y :: parts))%string.
    rewrite !length_append.
    replace (length (x :: y :: parts) - 1)
      with (S (length (y :: parts) - 1)) by (cbn [length]; lia).
    rewrite Nat.mul_succ_l.
    change (list_sum (map String.length (x :: y :: parts)))
      with (String.length x + list_sum (map String.length (y :: parts))).
    lia.
Qed.

(** ** Trees *)

Lemma node_induction (P : node -> Prop) :
  (forall s, P (NavigableString s)) ->
  (forall s, P (Comment s)) ->
  (forall name attrs contents,
      Forall P contents -> P (Tag name attrs contents)) ->
  forall n, P n.
Proof.
  intros Htext Hcomment Htag. fix IH 1.
  intros [s|s|name attrs contents]; [apply Htext|apply Hcomment|].
  apply Htag. induction contents as [|c cs IHcs]; constructor.
  - apply IH.
  - apply IHcs.
Qed.

Lemma found_by_decompose_where (q : query) (sel : node -> bool) (n : node) :
  found_by q (decompose_where sel n) = found_by q n.
Proof. destruct n; reflexivity. Qed.

Lemma decompose_where_ext (p p' : node -> bool) :
  (forall c, p c = p' c) ->
  forall n, decompose_where p n = decompose_where p' n.
Proof.
  intros Hext. induction n as [s|s|name attrs contents IH] using node_induction;
    try reflexivity.
  cbn [decompose_where]. f_equal.
  induction IH as [|c cs Hc _ IHcs]; [reflexivity|].
  cbn [flat_map]. rewrite Hext, Hc, IHcs. reflexivity.
Qed.

Lemma decompose_where_nothing (n : node) :
  decompose_where (fun _ => false) n = n.
Proof.
  induction n as [s|s|name attrs contents IH] using node_induction;
    try reflexivity.
  cbn [decompose_where]. f_equal.
  induction IH as [|c cs Hc _ IHcs]; [reflexivity|].
  cbn [flat_map app]. now rewrite Hc, IHcs.
Qed.

(** Two passes are one pass for either selection, when the second selection
    looks at the name and the attributes of a tag only. *)
Lemma decompose_where_twice (p q : node -> bool) :
  (forall c, q (decompose_where p c) = q c) ->
  forall n,
    decompose_where q (decompose_where p n)
    = decompose_where (fun c => p c || q c) n.
Proof.
  intros Hq. induction n as [s|s|name attrs contents IH] using node_induction;
    try reflexivity.
  cbn [decompose_where]. f_equal.
  induction IH as [|c cs Hc _ IHcs]; [reflexivity|].
  cbn [flat_map]. rewrite flat_map_app, IHcs.
  destruct (p c); cbn [orb flat_map app]; [reflexivity|].
  rewrite Hq. destruct (q c); cbn [app]; [reflexivity|].
  now rewrite Hc.
Qed.

Lemma fold_decompose_all (qs : list query) :
  forall (sel : node -> bool) (n : node),
    fold_left (fun soup q => decompose_all q soup) qs (decompose_where sel n)
    = decompose_where (fun c => sel c || existsb (fun q => found_by q c) qs) n.
Proof.
  induction qs as [|q qs IH]; intros sel n; cbn [fold_left existsb].
  - apply decompose_where_ext. intros c. now rewrite orb_false_r.
  - unfold decompose_all at 2.
    rewrite decompose_where_twice
      by (intros c; apply found_by_decompose_where).
    rewrite IH. apply decompose_where_ext. intros c.
    now rewrite orb_assoc.
Qed.

(** The loops of [_remove_unwanted_elements] leave the tree that one pass
    removing every unwanted tag leaves: the order in which the two sets are
    gone through does not matter. *)
Lemma remove_unwanted_single_pass (soup : node) :
  _remove_unwanted_elements soup = decompose_where unwanted soup.
Proof.
  unfold _remove_unwanted_elements, remove_patterns, remove_tags.
  transitivity
    (fold_left (fun soup q => decompose_all q soup) unwanted_queries soup).
  - unfold unwanted_queries. rewrite fold_left_app. f_equal.
    generalize direct_tags_to_remove, soup.
    induction l as [|tag tags IH]; intros n; [reflexivity|]. apply IH.
  - rewrite <- (decompose_where_nothing soup) at 1.
    rewrite fold_decompose_all. reflexivity.
Qed.

(** No tag that a query finds is left after a pass that selects all such
    tags. *)
Lemma find_all_decompose_where (q : query) (sel : node -> bool) :
  (forall c, found_by q c = true -> sel c = true) ->
  forall n, find_all q (decompose_where sel n) = [].
Proof.
  intros Hsel. induction n as [s|s|name attrs cs IH] using node_induction;
    try reflexivity.
  cbn [decompose_where find_all].
  induction IH as [|c cs Hc _ IHcs]; [reflexivity|].
  cbn [flat_map]. rewrite flat_map_app, IHcs, app_nil_r.
  destruct (sel c) eqn:Hc'; [reflexivity|].
  cbn [flat_map]. rewrite found_by_decompose_where, Hc, !app_nil_r.
  destruct (found_by q c) eqn:Hq; [|reflexivity].
  apply Hsel in Hq. congruence.
Qed.

Lemma concat_empty_cons (x : string) (l : list string) :
  String.concat EmptyString (x :: l) = (x ++ String.concat EmptyString l)%string.
Proof.
  destruct l as [|y l]; cbn [String.concat]; [|reflexivity].
  induction x as [|c x IH]; [reflexivity|]. cbn. now rewrite <- IH.
Qed.

(** The text of a tag after a pass is text of the tag before. *)
Lemma get_text_decompose_chars (sel : node -> bool) (c : ascii) :
  forall n, In c (chars (get_text (decompose_where sel n))) ->
            In c (chars (get_text n)).
Proof.
  induction n as [s|s|name attrs cs IH] using node_induction; try trivial.
  cbn [decompose_where get_text].
  induction IH as [|x cs Hx _ IHcs]; [trivial|].
  cbn [flat_map map]. rewrite map_app, concat_empty_cons, chars_append.
  intros H. apply in_app_iff.
  destruct (sel x); cbn [map app] in H.
  - right. now apply IHcs.
  - rewrite concat_empty_cons, chars_append in H.
    apply in_app_iff in H. destruct H as [H|H]; [left; now apply Hx|].
    right. now apply IHcs.
Qed.

Lemma get_text_decompose_length (sel : node -> bool) :
  forall n, String.length (get_text (decompose_where sel n))
            <= String.length (get_text n).
Proof.
  induction n as [s|s|name attrs cs IH] using node_induction; try reflexivity.
  cbn [decompose_where get_text].
  induction IH as [|x cs Hx _ IHcs]; [reflexivity|].
  cbn [flat_map map]. rewrite map_app, concat_empty_cons, length_append.
  destruct (sel x); cbn [map app].
  - lia.
  - rewrite concat_empty_cons, length_append. lia.
Qed.

(** The text of a tag found below another is text of that other. *)
Lemma find_all_text_chars (q : query) (c : ascii) (p : node) :
  forall n, In p (find_all q n) -> In c (chars (get_text p)) ->
            In c (chars (get_text n)).
Proof.
  induction n as [s|s|name attrs cs IH] using node_induction; try (intros []).
  cbn [find_all get_text]. intros Hin Hc.
  induction IH as [|x cs Hx _ IHcs]; [destruct Hin|].
  cbn [flat_map map] in *. rewrite concat_empty_cons, chars_append.
  apply in_app_iff. rewrite <- app_assoc in Hin.
  apply in_app_iff in Hin. destruct Hin as [Hin|Hin].
  - left. destruct (found_by q x); [|destruct Hin].
    destruct Hin as [<-|[]]. assumption.
  - apply in_app_iff in Hin. destruct Hin as [Hin|Hin].
    + left. now apply Hx.
    + right. now apply IHcs.
Qed.

(** ** Lists *)

Lemma subseq_refl {A} (l : list A) : subseq l l.
Proof. induction l; constructor; assumption. Qed.

Lemma subseq_nil_l {A} (l : list A) : subseq [] l.
Proof. induction l; constructor; assumption. Qed.

Lemma subseq_app {A} (a a' b b' : list A) :
  subseq a a' -> subseq b b' -> subseq (a ++ b) (a' ++ b').
Proof.
  intros Ha Hb. induction Ha; cbn; [assumption| |]; constructor; assumption.
Qed.

Lemma subseq_trans {A} (a b c : list A) :
  subseq a b -> subseq b c -> subseq a c.
Proof.
  intros Hab Hbc. revert a Hab.
  induction Hbc as [|x b c _ IH|x b c _ IH]; intros a Hab.
  - assumption.
  - constructor. now apply IH.
  - inversion Hab; subst; constructor; now apply IH.
Qed.

Lemma subseq_flat_map_in {A B} (g : A -> list B) (l : list A) (x : A) :
  In x l -> subseq (g x) (flat_map g l).
Proof.
  induction l as [|y l IH]; [intros []|].
  cbn [flat_map]. intros [->|Hin].
  - rewrite <- (app_nil_r (g x)) at 1.
    apply subseq_app; [apply subseq_refl|apply subseq_nil_l].
  - change (g x) with ([] ++ g x).
    apply subseq_app; [apply subseq_nil_l|now apply IH].
Qed.

Lemma existsb_ext_in {A} (f g : A -> bool) (l : list A) :
  (forall x, In x l -> f x = g x) -> existsb f l = existsb g l.
Proof.
  induction l as [|x l IH]; [reflexivity|]. intros H. cbn [existsb].
  rewrite (H x (or_introl eq_refl)), IH; [reflexivity|].
  intros y Hy. apply H. now right.
Qed.

Lemma existsb_map_compose {A B} (f : B -> bool) (g : A -> B) (l : list A) :
  existsb f (map g l) = existsb (fun x => f (g x)) l.
Proof. induction l as [|x l IH]; [reflexivity|]. cbn. now rewrite IH. Qed.

Lemma existsb_flat_map {A B} (f : B -> bool) (g : A -> list B) (l : list A) :
  existsb f (flat_map g l) = existsb (fun x => existsb f (g x)) l.
Proof.
  induction l as [|x l IH]; [reflexivity|]. cbn [flat_map existsb].
  now rewrite existsb_app, IH.
Qed.

Lemma length_flat_map {A B} (g : A -> list B) (l : list A) :
  length (flat_map g l) = list_sum (map (fun x => length (g x)) l).
Proof.
  induction l as [|x l IH]; [reflexivity|].
  cbn [flat_map map]. now rewrite length_app, list_sum_cons, IH.
Qed.

Lemma list_sum_le {A} (f g h : A -> nat) (l : list A) :
  (forall x, In x l -> f x + g x <= h x) ->
  list_sum (map f l) + list_sum (map g l) <= list_sum (map h l).
Proof.
  induction l as [|x l IH]; [reflexivity|]. intros H.
  cbn [map]. rewrite !list_sum_cons.
  specialize (H x (or_introl eq_refl)) as Hx.
  assert (list_sum (map f l) + list_sum (map g l) <= list_sum (map h l))
    by (apply IH; intros y Hy; apply H; now right).
  lia.
Qed.

(** ** Texts and tags of a tree *)

Lemma concat_empty_app (a b : list string) :
  String.concat EmptyString (a ++ b)
  = (String.concat EmptyString a ++ String.concat EmptyString b)%string.
Proof.
  induction a as [|x a IH]; [reflexivity|].
  change ((x :: a) ++ b) with (x :: a ++ b).
  rewrite !concat_empty_cons, IH. now rewrite append_associative.
Qed.

(** The text of a node is made of its text strings. *)
Lemma get_text_texts :
  forall n, get_text n = String.concat EmptyString (texts n).
Proof.
  induction n as [s|s|name attrs cs IH] using node_induction;
    try reflexivity.
  cbn [get_text texts].
  induction IH as [|c cs Hc _ IHcs]; [reflexivity|].
  cbn [map flat_map]. now rewrite concat_empty_cons, concat_empty_app, Hc, IHcs.
Qed.

(** A pass leaves text strings out and adds none. *)
Lemma texts_decompose_where (sel : node -> bool) :
  forall n, subseq (texts (decompose_where sel n)) (texts n).
Proof.
  induction n as [s|s|name attrs cs IH] using node_induction;
    try apply subseq_refl.
  cbn [decompose_where texts].
  induction IH as [|c cs Hc _ IHcs]; [constructor|].
  cbn [flat_map]. rewrite flat_map_app. apply subseq_app; [|exact IHcs].
  destruct (sel c); cbn [flat_map]; [apply subseq_nil_l|].
  now rewrite app_nil_r.
Qed.

(** The text strings of a tag found below a node are text strings of the
    node. *)
Lemma texts_find_all (q : query) (e : node) :
  forall n, In e (find_all q n) -> subseq (texts e) (texts n).
Proof.
  induction n as [s|s|name attrs cs IH] using node_induction;
    try (intros []).
  cbn [find_all texts]. intros Hin. apply in_flat_map in Hin.
  destruct Hin as (c & Hc & He). rewrite Forall_forall in IH.
  apply (subseq_trans _ (texts c)); [|now apply subseq_flat_map_in].
  apply in_app_iff in He. destruct He as [He|He]; [|now apply IH].
  destruct (found_by q c); [|destruct He]. destruct He as [<-|[]].
  apply subseq_refl.
Qed.

Lemma count_tags_decompose_where (sel : node -> bool) :
  forall n, count_tags (decompose_where sel n) <= count_tags n.
Proof.
  induction n as [s|s|name attrs cs IH] using node_induction; try reflexivity.
  cbn [decompose_where count_tags]. apply le_n_S.
  induction IH as [|c cs Hc _ IHcs]; [reflexivity|].
  cbn [flat_map map list_sum]. rewrite map_app, list_sum_app.
  destruct (sel c); cbn [map]; rewrite ?list_sum_cons; cbn [list_sum fold_right];
    fold (list_sum (map count_tags cs)); lia.
Qed.

Lemma lengths_app (a b : list node) : lengths (a ++ b) = lengths a + lengths b.
Proof. unfold lengths. now rewrite map_app, list_sum_app. Qed.

Lemma length_concat_empty (l : list string) :
  String.length (String.concat EmptyString l)
  = list_sum (map String.length l).
Proof.
  induction l as [|x l IH]; [reflexivity|].
  rewrite concat_empty_cons, length_append, IH. reflexivity.
Qed.

Lemma lengths_flat_map (g : node -> list node) (cs : list node) :
  lengths (flat_map g cs) = list_sum (map (fun c => lengths (g c)) cs).
Proof.
  induction cs as [|c cs IH]; [reflexivity|].
  cbn [flat_map map]. now rewrite lengths_app, list_sum_cons, IH.
Qed.




Lemma is_tag_decompose_where (sel : node -> bool) (n : node) :
  is_tag (decompose_where sel n) = is_tag n.
Proof. destruct n; reflexivity. Qed.

(** The tags left by a pass are the tags that were neither selected nor
    inside a selected tag, each after the pass. *)
Lemma descendants_decompose_where (sel : node -> bool) :
  forall n,
    descendants (decompose_where sel n)
    = map (decompose_where sel) (kept sel n).
Proof.
  induction n as [s|s|name attrs cs IH] using node_induction; try reflexivity.
  cbn [decompose_where descendants kept].
  induction IH as [|c cs Hc _ IHcs]; [reflexivity|].
  cbn [flat_map]. rewrite flat_map_app, map_app, IHcs. f_equal.
  destruct (sel c); [reflexivity|].
  cbn [flat_map]. rewrite app_nil_r, map_app, is_tag_decompose_where, Hc.
  now destruct (is_tag c).
Qed.

Lemma kept_not_selected (sel : node -> bool) (x : node) :
  forall n, In x (kept sel n) -> sel x = false.
Proof.
  induction n as [s|s|name attrs cs IH] using node_induction;
    try (intros []).
  cbn [kept]. intros Hin. apply in_flat_map in Hin.
  destruct Hin as (c & Hc & Hx). rewrite Forall_forall in IH.
  destruct (sel c) eqn:E; [destruct Hx|].
  apply in_app_iff in Hx. destruct Hx as [Hx|Hx]; [|now apply (IH c)].
  destruct (is_tag c); [|destruct Hx]. destruct Hx as [<-|[]]. exact E.
Qed.

Lemma find_all_child (q : query) (name : string) (attrs : attrs_t)
    (cs : list node) (c e : node) :
  In c cs ->
  In e ((if found_by q c then [c] else []) ++ find_all q c) ->
  In e (find_all q (Tag name attrs cs)).
Proof.
  intros Hc He. cbn [find_all]. apply in_flat_map. now exists c.
Qed.

Lemma flat_paragraphs_child (name : string) (attrs : attrs_t)
    (cs : list node) (c : node) :
  flat_paragraphs (Tag name attrs cs) -> In c cs -> flat_paragraphs c.
Proof.
  intros Hflat Hc e He. apply Hflat. unfold select in *.
  apply in_app_iff in He. apply in_app_iff.
  destruct He as [He|He]; [left|right];
    (apply (find_all_child _ name attrs cs c e Hc);
     apply in_app_iff; now right).
Qed.

(** When no [p] or [span] lies inside another, their texts are disjoint
    parts of the text of the body. *)
Lemma paragraphs_fit :
  forall n,
    flat_paragraphs n ->
    lengths (select n "p") + lengths (select n "span")
    <= String.length (get_text n).
Proof.
  induction n as [s|s|name attrs cs IH] using node_induction;
    try (intros _; cbn; lia).
  intros Hflat. unfold select. cbn [find_all get_text].
  rewrite !lengths_flat_map, length_concat_empty, map_map.
  apply list_sum_le. intros c Hc. rewrite Forall_forall in IH.
  pose proof (flat_paragraphs_child name attrs cs c Hflat Hc) as Hflat_c.
  specialize (IH c Hc Hflat_c). unfold select in IH.
  rewrite !lengths_app.
  destruct (found_by (ByName "p") c) eqn:Hp.
  - destruct (Hflat c) as [Hnop Hnospan].
    { apply in_app_iff. left. unfold select.
      apply (find_all_child _ name attrs cs c c Hc). rewrite Hp. now left. }
    unfold select in Hnop, Hnospan. rewrite Hnop, Hnospan.
    assert (found_by (ByName "span") c = false) as ->.
    { destruct c as [?|?|cname ? ?]; try reflexivity. cbn in *.
      apply String.eqb_eq in Hp. now subst. }
    unfold lengths. cbn. lia.
  - destruct (found_by (ByName "span") c) eqn:Hs.
    + destruct (Hflat c) as [Hnop Hnospan].
      { apply in_app_iff. right. unfold select.
        apply (find_all_child _ name attrs cs c c Hc). rewrite Hs. now left. }
      unfold select in Hnop, Hnospan. rewrite Hnop, Hnospan.
      unfold lengths. cbn. lia.
    + unfold lengths at 1 3. cbn [map list_sum fold_right]. lia.
Qed.

(** There are no more [p] and [span] tags below a node than tags. *)
Lemma paragraphs_count :
  forall n,
    length (select n "p") + length (select n "span")
    + (if is_tag n then 1 else 0)
    <= count_tags n.
Proof.
  induction n as [s|s|name attrs cs IH] using node_induction;
    try (cbn; lia).
  unfold select. cbn [find_all count_tags is_tag].
  rewrite !length_flat_map.
  enough (list_sum
            (map (fun x =>
                    length ((if found_by (ByName "p") x then [x] else [])
                              ++ find_all (ByName "p") x)) cs)
          + list_sum
              (map (fun x =>
                      length ((if found_by (ByName "span") x then [x] else [])
                                ++ find_all (ByName "span") x)) cs)
          <= list_sum (map count_tags cs)) by lia.
  apply list_sum_le. intros c Hc. rewrite Forall_forall in IH.
  specialize (IH c Hc). unfold select in IH. rewrite !length_app.
  destruct c as [?|?|cname cattrs ccs]; try (cbn in *; lia).
  cbn [found_by is_tag] in *.
  destruct (String.eqb_spec cname "p") as [->|Hp]; cbn [length].
  - cbn [String.eqb Ascii.eqb Bool.eqb andb]. cbn [length]. lia.
  - destruct (String.eqb cname "span"); cbn [length]; lia.
Qed.

(** ** The denylist *)

Lemma has_space_append (a b : string) :
  has_space (a ++ b) = has_space a || has_space b.
Proof.
  unfold has_space. fold (chars (a ++ b)) (chars a) (chars b).
  now rewrite chars_append, existsb_app.
Qed.

Lemma join_many_has_space (x y : string) (rest : list string) :
  has_space (Str.join " " (x :: y :: rest)) = true.
Proof.
  unfold Str.join. cbn [String.concat].
  rewrite !has_space_append. cbn. now rewrite orb_true_r.
Qed.

Lemma patterns_are_words :
  forall pattern, In pattern unwanted_patterns ->
                  has_space pattern = false /\ pattern <> EmptyString.
Proof.
  assert (forallb (fun p => negb (has_space p) && negb (String.eqb p EmptyString))
            unwanted_patterns = true) as H by reflexivity.
  intros pattern Hin. rewrite forallb_forall in H. specialize (H _ Hin).
  apply andb_true_iff in H. destruct H as [Hs He].
  apply negb_true_iff in Hs, He. split; [assumption|].
  now apply String.eqb_neq.
Qed.

(** A multi-valued attribute matches a denylist token when the token is one
    of its values, and only then. *)
Lemma matches_values (items : list string) (pattern : string) :
  In pattern unwanted_patterns ->
  _matches (Some (AttrList items)) pattern = true <-> In pattern items.
Proof.
  intros Hin. destruct (patterns_are_words _ Hin) as [Hspace Hne].
  cbn [_matches]. rewrite orb_true_iff, existsb_exists. split.
  - intros [(item & Hitem & Heq)|Hjoin].
    + apply String.eqb_eq in Heq. now subst.
    + apply String.eqb_eq in Hjoin.
      destruct items as [|x [|y rest]].
      * cbn in Hjoin. congruence.
      * cbn in Hjoin. subst. now left.
      * rewrite <- Hjoin, join_many_has_space in Hspace. discriminate.
  - intros H. left. exists pattern. split; [assumption|apply String.eqb_refl].
Qed.

(** A token of the denylist matches an attribute when it is equal to one of
    its values, and only then. *)
Lemma matches_exactly (value : option attr_value) (pattern : string) :
  In pattern unwanted_patterns ->
  _matches value pattern = existsb (String.eqb pattern) (attr_values value).
Proof.
  intros Hin. destruct (patterns_are_words _ Hin) as [_ Hne].
  destruct value as [[s|items]|]; cbn [attr_values existsb].
  - cbn [_matches]. now rewrite orb_false_r, String.eqb_sym.
  - apply Bool.eq_iff_eq_true. rewrite (matches_values items pattern Hin).
    rewrite existsb_exists. split.
    + intros H. exists pattern. split; [exact H|apply String.eqb_refl].
    + intros (x & Hx & E). apply String.eqb_eq in E. now subst.
  - cbn [_matches]. now apply String.eqb_neq.
Qed.

(** The tags the loops of [_remove_unwanted_elements] select are the tags on
    the denylist. *)
Lemma unwanted_on_denylist (n : node) : unwanted n = on_denylist n.
Proof.
  unfold unwanted, unwanted_queries.
  rewrite existsb_app, existsb_map_compose, existsb_flat_map.
  destruct n as [s|s|name attrs cs]; cbn [on_denylist found_by].
  - induction direct_tags_to_remove as [|x l IH];
      [|cbn [existsb orb]; exact IH].
    induction unwanted_patterns as [|x l IH]; [reflexivity|exact IH].
  - induction direct_tags_to_remove as [|x l IH];
      [|cbn [existsb orb]; exact IH].
    induction unwanted_patterns as [|x l IH]; [reflexivity|exact IH].
  - f_equal. apply existsb_ext_in. intros pattern Hin.
    cbn [existsb found_by]. rewrite orb_false_r, existsb_app.
    now rewrite !(matches_exactly _ _ Hin).
Qed.

Lemma on_denylist_decompose_where (sel : node -> bool) (n : node) :
  on_denylist (decompose_where sel n) = on_denylist n.
Proof. destruct n; reflexivity. Qed.

Lemma remove_unwanted_on_denylist (soup : node) :
  _remove_unwanted_elements soup = decompose_where on_denylist soup.
Proof.
  rewrite remove_unwanted_single_pass.
  apply decompose_where_ext, unwanted_on_denylist.
Qed.

Lemma existsb_not_in (name : string) (l : list string) :
  ~ In name l -> existsb (String.eqb name) l = false.
Proof.
  intros H. destruct (existsb _ l) eqn:E; [|reflexivity].
  apply existsb_exists in E. destruct E as (x & Hx & Heq).
  apply String.eqb_eq in Heq. now subst.
Qed.

(** C6, as the code has it.  The tags below the root that
    [_remove_unwanted_elements] leaves are exactly the tags that are not on
    the denylist and not inside a tag that is, each cleaned in the same way:
    a tag is on the denylist when its name is one of the eight tag names, or
    when a token is equal to one of the values of its [class] or to its [id],
    never by containment.  So no tag on the denylist is left below the root,
    a child that is not on it stays, and the root itself stays whatever its
    attributes.  A tag with [cookie-banner] among the values of its [class],
    or as its [id], is on the denylist; a tag whose only attribute is the
    [class] or the [id] [cookie-banner-extra], and whose name is not a
    removed tag name, is not. *)
Theorem denylist_matches_exactly :
  (forall soup,
      descendants (_remove_unwanted_elements soup)
      = map _remove_unwanted_elements (kept on_denylist soup))
  /\ (forall soup c,
         In c (descendants (_remove_unwanted_elements soup)) ->
         on_denylist c = false)
  /\ (forall name attrs cs c,
         In c cs -> is_tag c = true -> on_denylist c = false ->
         In (_remove_unwanted_elements c)
            (descendants (_remove_unwanted_elements (Tag name attrs cs))))
  /\ (forall name attrs cs,
         exists cs',
           _remove_unwanted_elements (Tag name attrs cs) = Tag name attrs cs')
  /\ (forall name attrs cs,
         In "cookie-banner" (attr_values (attrs_get attrs "class"))
         \/ In "cookie-banner" (attr_values (attrs_get attrs "id")) ->
         on_denylist (Tag name attrs cs) = true)
  /\ (forall name cs,
         ~ In name direct_tags_to_remove ->
         on_denylist
           (Tag name [("class", AttrList ["cookie-banner-extra"])] cs) = false
         /\ on_denylist
              (Tag name [("id", AttrString "cookie-banner-extra")] cs) = false).
Proof.
  assert (forall soup,
             descendants (_remove_unwanted_elements soup)
             = map _remove_unwanted_elements (kept on_denylist soup)) as Hleft.
  { intros soup. rewrite remove_unwanted_on_denylist.
    rewrite descendants_decompose_where. apply map_ext. intros c.
    now rewrite remove_unwanted_on_denylist. }
  split; [exact Hleft|]. split; [|split; [|split; [|split]]].
  - intros soup c Hin. rewrite Hleft in Hin. apply in_map_iff in Hin.
    destruct Hin as (x & <- & Hx).
    rewrite remove_unwanted_on_denylist, on_denylist_decompose_where.
    now apply (kept_not_selected on_denylist x soup).
  - intros name attrs cs c Hin Htag Hoff. rewrite Hleft.
    apply in_map. cbn [kept]. apply in_flat_map. exists c.
    split; [exact Hin|]. rewrite Hoff, Htag. now left.
  - intros name attrs cs. rewrite remove_unwanted_on_denylist.
    eexists. reflexivity.
  - intros name attrs cs Hin. cbn [on_denylist]. apply orb_true_iff. right.
    apply existsb_exists. exists "cookie-banner". split.
    + do 4 right. now left.
    + rewrite existsb_app. apply orb_true_iff.
      destruct Hin as [Hin|Hin]; [left|right];
        apply existsb_exists; exists "cookie-banner";
        (split; [exact Hin|reflexivity]).
  - intros name cs Hname. unfold on_denylist.
    rewrite (existsb_not_in name _ Hname). split; reflexivity.
Qed.

Lemma denylist_matches_exactly_witness :
  let banner_class :=
    Tag "div" [("class", AttrList ["cookie-banner"; "top"])]
      [Tag "p" [] [NavigableString "A"]] in
  let banner_id :=
    Tag "div" [("id", AttrString "cookie-banner")] [NavigableString "B"] in
  let extra_class :=
    Tag "div" [("class", AttrList ["cookie-banner-extra"])]
      [NavigableString "C"] in
  let extra_id :=
    Tag "div" [("id", AttrString "cookie-banner-extra")]
      [NavigableString "D"] in
  on_denylist banner_class = true
  /\ on_denylist banner_id = true
  /\ on_denylist extra_class = false
  /\ on_denylist extra_id = false
  /\ descendants
       (_remove_unwanted_elements
          (Tag "body" [] [banner_class; banner_id; extra_class; extra_id]))
     = [extra_class; extra_id].
Proof.
  cbv zeta.
  destruct denylist_matches_exactly as (Hleft & _ & _ & _ & Hon & Hoff).
  split; [apply Hon; left; cbn; tauto|].
  split; [apply Hon; right; cbn; tauto|].
  assert (~ In "div" direct_tags_to_remove) as Hdiv
      by (cbn; intuition discriminate).
  split; [exact (proj1 (Hoff "div" [NavigableString "C"] Hdiv))|].
  split; [exact (proj2 (Hoff "div" [NavigableString "D"] Hdiv))|].
  rewrite Hleft. vm_compute. reflexivity.
Defined.

(** C6 as stated fails for the body itself: [find_all] looks below the tag
    it is called on, so a body whose [class] is [cookie-banner] is not
    removed, and its text is extracted. *)
Lemma body_on_denylist_stays :
  let page_source := "<body class='cookie-banner'><p>kept</p></body>" in
  let b :=
    Tag "body" [("class", AttrList ["cookie-banner"])]
      [Tag "p" [] [NavigableString "kept"]] in
  body (Lite.BeautifulSoup page_source) = Some b
  /\ on_denylist b = true
  /\ _remove_unwanted_elements b = b
  /\ _extract_paragraphs Lite.BeautifulSoup (Some page_source) = Some "kept".
Proof. cbv zeta. repeat split; vm_compute; reflexivity. Qed.

(** ** Extraction *)

Lemma extract_paragraphs_run (BeautifulSoup : string -> node)
    (page_source : string) (b : node) :
  page_source <> EmptyString ->
  body (BeautifulSoup page_source) = Some b ->
  _extract_paragraphs BeautifulSoup (Some page_source)
  = Some (let b' := _remove_unwanted_elements b in
          if String.length (primary_text b') <? 1000
          then Str.strip (get_text b')
          else primary_text b').
Proof.
  intros Hsrc Hbody. unfold _extract_paragraphs.
  destruct page_source as [|c rest]; [congruence|].
  rewrite Hbody. reflexivity.
Qed.

Lemma extract_paragraphs_body (BeautifulSoup : string -> node)
    (page_source text : string) :
  _extract_paragraphs BeautifulSoup (Some page_source) = Some text ->
  page_source <> EmptyString
  /\ exists b, body (BeautifulSoup page_source) = Some b.
Proof.
  unfold _extract_paragraphs.
  destruct page_source as [|c rest]; [discriminate|].
  destruct (body (BeautifulSoup (String c rest))) as [b|]; [|discriminate].
  intros _. split; [discriminate|]. now exists b.
Qed.




(** ** The cleaned text *)

Lemma some_injective {A} (x y : A) : Some x = Some y -> x = y.
Proof. now intros [= ->]. Qed.

Lemma primary_text_chars (b : node) (c : ascii) :
  In c (chars (primary_text b)) ->
  In c (chars Str.newline) \/ In c (chars (get_text b)).
Proof.
  unfold primary_text, _extract_text_from_paragraphs. intros H.
  apply strip_chars, join_chars in H.
  destruct H as [H|(part & Hpart & Hc)]; [now left|]. right.
  apply in_map_iff in Hpart. destruct Hpart as (p & <- & Hp).
  apply strip_chars in Hc. unfold select in Hp.
  apply in_app_iff in Hp. destruct Hp as [Hp|Hp];
    eapply find_all_text_chars; eassumption.
Qed.

Lemma stripped_lengths (l : list node) :
  list_sum (map String.length (map (fun p => Str.strip (get_text p)) l))
  <= lengths l.
Proof.
  unfold lengths. induction l as [|x l IH]; [reflexivity|].
  cbn [map]. rewrite !list_sum_cons.
  pose proof (strip_length (get_text x)). lia.
Qed.

(** The text built from the [p] and [span] tags, when none of them lies
    inside another, is no longer than the text of the body with one
    character for each tag. *)
Lemma primary_text_length (b : node) :
  flat_paragraphs b ->
  String.length (primary_text b) <= String.length (get_text b) + count_tags b.
Proof.
  intros Hflat. unfold primary_text, _extract_text_from_paragraphs.
  etransitivity; [apply strip_length|].
  etransitivity; [apply join_length|].
  pose proof (stripped_lengths (select b "p" ++ select b "span")) as Hparts.
  rewrite lengths_app in Hparts.
  pose proof (paragraphs_fit b Hflat) as Hfit.
  pose proof (paragraphs_count b) as Hcount.
  rewrite length_map, length_app.
  change (String.length Str.newline) with 1. lia.
Qed.

(** C9, as the code has it.  The cleaned text holds no tag and no attribute
    of the document: it is made of whole text strings of the parsed body, in
    document order, trimmed and joined by newlines, so each of its characters
    is a newline or a character of a text string of the body.  In the
    fallback (the text built from the [p] and [span] tags is shorter than
    1000 characters) it is no longer than the text of the parsed body.
    Against the raw HTML: when the page source is at least as long as the
    text of the body with one character for each of its tags, the cleaned
    text is no longer than the page source, in the fallback and whenever no
    [p] or [span] left in the body lies inside another [p] or [span]. *)
Theorem cleaned_text_is_body_text (BeautifulSoup : string -> node)
    (page_source text : string) :
  _extract_paragraphs BeautifulSoup (Some page_source) = Some text ->
  exists b,
    body (BeautifulSoup page_source) = Some b
    /\ (exists pieces,
           Forall (fun piece => subseq piece (texts b)) pieces
           /\ text
              = Str.strip
                  (Str.join Str.newline
                     (map (fun piece =>
                             Str.strip (String.concat EmptyString piece))
                        pieces)))
    /\ (forall c,
           In c (chars text) ->
           In c (chars Str.newline)
           \/ exists s, In s (texts b) /\ In c (chars s))
    /\ (String.length (primary_text (_remove_unwanted_elements b)) < 1000 ->
        String.length text <= String.length (get_text b))
    /\ (holds page_source b ->
        String.length (primary_text (_remove_unwanted_elements b)) < 1000
        \/ flat_paragraphs (_remove_unwanted_elements b) ->
        String.length text <= String.length page_source).
Proof.
  intros Hrun.
  destruct (extract_paragraphs_body _ _ _ Hrun) as [Hsrc [b Hbody]].
  exists b. split; [assumption|].
  rewrite (extract_paragraphs_run _ _ b Hsrc Hbody) in Hrun.
  cbn zeta in Hrun. apply some_injective in Hrun. subst text.
  rewrite remove_unwanted_single_pass.
  set (b' := decompose_where unwanted b).
  assert (String.length (get_text b') <= String.length (get_text b)) as Htext
      by apply get_text_decompose_length.
  split; [|split; [|split]].
  - destruct (String.length (primary_text b') <? 1000).
    + exists [texts b']. split.
      * repeat constructor. apply texts_decompose_where.
      * cbn [map]. unfold Str.join. cbn [String.concat].
        now rewrite <- get_text_texts, strip_twice.
    + exists (map texts (select b' "p" ++ select b' "span")). split.
      * apply Forall_forall. intros piece Hin. apply in_map_iff in Hin.
        destruct Hin as (e & <- & He).
        apply (subseq_trans _ (texts b')); [|apply texts_decompose_where].
        unfold select in He. apply in_app_iff in He.
        destruct He as [He|He]; eapply texts_find_all; eassumption.
      * rewrite map_map. unfold primary_text, _extract_text_from_paragraphs.
        do 2 f_equal. apply map_ext. intros e. now rewrite get_text_texts.
  - intros c Hin.
    assert (In c (chars Str.newline) \/ In c (chars (get_text b))) as H.
    { destruct (String.length (primary_text b') <? 1000).
      - right. apply strip_chars in Hin.
        eapply get_text_decompose_chars; eassumption.
      - apply primary_text_chars in Hin.
        destruct Hin as [Hin|Hin]; [now left|right].
        eapply get_text_decompose_chars; eassumption. }
    destruct H as [H|H]; [now left|right].
    rewrite get_text_texts in H. apply join_chars in H.
    destruct H as [[]|H]. exact H.
  - intros Hshort. apply Nat.ltb_lt in Hshort. rewrite Hshort.
    etransitivity; [apply strip_length|exact Htext].
  - intros Hholds Hcase. unfold holds in Hholds.
    destruct (Nat.ltb_spec (String.length (primary_text b')) 1000)
      as [Hshort|Hlong].
    + pose proof (strip_length (get_text b')). lia.
    + destruct Hcase as [Hshort|Hflat]; [lia|].
      pose proof (primary_text_length b' Hflat).
      pose proof (count_tags_decompose_where unwanted b). fold b' in H0. lia.
Qed.

Lemma cleaned_text_is_body_text_witness :
  let page_source :=
    ("<body><nav>skip</nav><p>" ++ Str.times "A" 1000
       ++ "</p><span>B</span></body>")%string in
  let text := (Str.times "A" 1000 ++ Str.newline ++ "B")%string in
  _extract_paragraphs Lite.BeautifulSoup (Some page_source) = Some text
  /\ String.length text <= String.length page_source.
Proof.
  cbv zeta.
  set (page_source :=
         ("<body><nav>skip</nav><p>" ++ Str.times "A" 1000
            ++ "</p><span>B</span></body>")%string).
  set (text := (Str.times "A" 1000 ++ Str.newline ++ "B")%string).
  assert (_extract_paragraphs Lite.BeautifulSoup (Some page_source)
          = Some text) as Hrun by (vm_compute; reflexivity).
  split; [exact Hrun|].
  destruct (cleaned_text_is_body_text Lite.BeautifulSoup page_source text Hrun)
    as (b & Hbody & _ & _ & _ & Hlength).
  assert (b = Tag "body" []
                [Tag "nav" [] [NavigableString "skip"];
                 Tag "p" [] [NavigableString (Str.times "A" 1000)];
                 Tag "span" [] [NavigableString "B"]]) as ->.
  { apply some_injective. rewrite <- Hbody. vm_compute. reflexivity. }
  apply Hlength.
  - unfold holds. apply Nat.leb_le. vm_compute. reflexivity.
  - right. intros e He. vm_compute in He.
    destruct He as [<-|[<-|[]]]; split; reflexivity.
Defined.

(** C9 as stated fails: the text of a [span] inside a [p] is taken once for
    the [p] and once for the [span], so the cleaned text of this page of 1033
    characters has 2001. *)
Lemma cleaned_text_longer_than_html :
  let page_source :=
    ("<body><p><span>" ++ Str.times "A" 1000 ++ "</span></p></body>")%string in
  let text :=
    (Str.times "A" 1000 ++ Str.newline ++ Str.times "A" 1000)%string in
  _extract_paragraphs Lite.BeautifulSoup (Some page_source) = Some text
  /\ String.length page_source = 1033
  /\ String.length text = 2001
  /\ ~ String.length text <= String.length page_source.
Proof.
  cbv zeta. split; [vm_compute; reflexivity|].
  split; [vm_compute; reflexivity|].
  split; [vm_compute; reflexivity|].
  intros H. apply Nat.leb_le in H. vm_compute in H. discriminate.
Qed.

(** ** The length check of [scrape] *)

(** What [scrape] does once the fetch has returned. *)
Lemma scrape_after_fetch (BeautifulSoup : string -> node) (env : Env)
    (self : SelenoidWebScraper) (url : string) (t t' : trace)
    (page_source : option string) :
  _fetch_url env self url t = (t', Returned page_source) ->
  snd (scrape BeautifulSoup env self url t)
  = Returned
      (match page_source with
       | Some s =>
           if String.eqb s NOT_RESPONDING then Some NOT_RESPONDING
           else
             match _extract_paragraphs BeautifulSoup page_source with
             | Some (String _ _ as text) =>
                 if String.length text <? 1000 then Some NOT_RELEVANT
                 else Some text
             | _ => None
             end
       | None => None
       end).
Proof.
  intros Hfetch. unfold scrape, bind at 1. rewrite Hfetch.
  destruct page_source as [s|].
  - destruct (String.eqb_spec s NOT_RESPONDING) as [->|Hne]; [reflexivity|].
    destruct (_extract_paragraphs BeautifulSoup (Some s)) as [[|c text]|];
      try reflexivity.
    unfold bind, print, ret.
    destruct (String.length (String c text) <? 1000); reflexivity.
  - reflexivity.
Qed.

(** C4, as the code has it: after a successful fetch whose page is not the
    "not responding" sentence, [scrape] returns None for an empty final text,
    the "no relevant information" sentence for a non-empty text shorter than
    1000 characters, and the text itself from 1000 characters on. *)
Theorem scrape_length_check (BeautifulSoup : string -> node) (env : Env)
    (self : SelenoidWebScraper) (url : string) (t t' : trace)
    (page_source text : string) :
  _fetch_url env self url t = (t', Returned (Some page_source)) ->
  page_source <> NOT_RESPONDING ->
  _extract_paragraphs BeautifulSoup (Some page_source) = Some text ->
  snd (scrape BeautifulSoup env self url t)
  = Returned
      (if String.length text =? 0 then None
       else if String.length text <? 1000 then Some NOT_RELEVANT
            else Some text).
Proof.
  intros Hfetch Hne Htext.
  rewrite (scrape_after_fetch _ _ _ _ _ _ _ Hfetch).
  apply String.eqb_neq in Hne. rewrite Hne, Htext.
  destruct text; reflexivity.
Qed.

Lemma scrape_length_check_witness :
  snd (scrape Lite.BeautifulSoup
         (Fake.healthy "<body><p>short</p></body>") Fake.scraper
         "http://example.org/" [])
  = Returned (Some NOT_RELEVANT).
Proof.
  apply (scrape_length_check Lite.BeautifulSoup
           (Fake.healthy "<body><p>short</p></body>") Fake.scraper
           "http://example.org/" []
           (fst (_fetch_url (Fake.healthy "<body><p>short</p></body>")
                   Fake.scraper "http://example.org/" []))
           "<body><p>short</p></body>" "short").
  - vm_compute. reflexivity.
  - discriminate.
  - vm_compute. reflexivity.
Defined.

(** C4 as stated fails at the empty text: a page whose body holds only a
    navigation bar is fetched, its final text is empty, so shorter than 1000
    characters, and [scrape] returns None, not the "no relevant information"
    sentence. *)
Lemma empty_text_is_no_content :
  let page_source := "<body><nav>Home</nav></body>" in
  let env := Fake.healthy page_source in
  snd (_fetch_url env Fake.scraper "http://example.org/" [])
  = Returned (Some page_source)
  /\ _extract_paragraphs Lite.BeautifulSoup (Some page_source)
     = Some EmptyString
  /\ snd (scrape Lite.BeautifulSoup env Fake.scraper "http://example.org/" [])
     = Returned None
  /\ snd (scrape Lite.BeautifulSoup env Fake.scraper "http://example.org/" [])
     <> Returned (Some NOT_RELEVANT).
Proof.
  cbv zeta. repeat split; try (vm_compute; reflexivity).
  vm_compute. discriminate.
Qed.

(** ** Releasing a session *)

(** C8, as the code has it: [stop] returns when [quit] answers and when it
    fails with any exception of the [WebDriverException] family (a session
    that is gone, and a timeout or any other remote failure as well); any
    other exception leaves [stop] as it is, under its own class.  Against a
    server that answers "invalid session id" for a session that is not live,
    a second [stop] on the same driver always returns. *)
Theorem stop_swallows_webdriver_failures :
  (forall env d t,
      snd (stop env d t)
      = match on_quit env t d with
        | Ok _ => Returned tt
        | Err e => if is_WebDriverException e then Returned tt else Raised e
        end)
  /\ (forall base d t,
         let env := Fake.strict base in
         snd (stop env d (fst (stop env d t))) = Returned tt).
Proof.
  split.
  - intros env d t. rewrite stop_run.
    destruct (on_quit env t d) as [[]|e]; [reflexivity|].
    destruct (is_WebDriverException e); reflexivity.
  - intros base d t env.
    destruct (stop_trace env d t) as (ev & -> & _ & _ & Hq & _).
    apply stop_returns.
    assert (Fake.live (t ++ ev) d = false) as Hdead.
    { unfold Fake.live. rewrite quits_app, Hq, existsb_app.
      cbn. rewrite Nat.eqb_refl, orb_true_r. cbn. apply andb_false_r. }
    cbn. rewrite Hdead. reflexivity.
Qed.

(** C8 as stated fails: a [quit] that times out is not a session that is
    already gone, yet [stop] swallows it and returns. *)
Lemma stop_swallows_a_timeout :
  stop (Fake.quitting Fake.timeout (Fake.healthy EmptyString)) 0 []
  = ([Quit 0 (Err (TimeoutException "timeout"));
      Print "Browser session was not found. It might have been closed already."],
     Returned tt).
Proof. reflexivity. Qed.

(** ** The [finally] of [_fetch_url] *)

Lemma until_poll_total (method : M bool) :
  (forall t, snd (method t) <> Diverged) ->
  forall polls screen stacktrace t,
    snd (until_poll polls method screen stacktrace t) <> Diverged.
Proof.
  intros Hm. induction polls as [|polls IH]; intros screen stacktrace t;
    cbn [until_poll]; unfold bind, try_except, ret; cbn [except];
    specialize (Hm t); destruct (method t) as [t1 [[|]|e|]];
    cbn [snd] in *; try discriminate; try contradiction; try apply IH;
    destruct (is_NoSuchElementException e); cbn; try discriminate;
    apply IH.
Qed.

(** Whatever happens after [start] has returned a driver, [_fetch_url] ends,
    and it ends with [stop] on that driver. *)
Lemma fetch_url_stops_its_driver (env : Env) (self : SelenoidWebScraper)
    (url : string) (t t1 : trace) (d : WebDriver) :
  start env self t = (t1, Returned d) ->
  snd (_fetch_url env self url t) <> Diverged
  /\ exists t2, fst (_fetch_url env self url t) = fst (stop env d t2).
Proof.
  intros Hstart.
  assert (exists body,
             _fetch_url env self url t = try_finally body (stop env d) t1
             /\ snd (body t1) <> Diverged) as (body & -> & Hbody).
  { eexists. split.
    { unfold _fetch_url. unfold bind at 1. rewrite Hstart. reflexivity. }
    unfold try_except, bind at 1.
    pose proof (safe_get_while_total env self d url 3 0 d None t1) as Hloop.
    unfold _safe_get.
    destruct (_safe_get_while env self 3 (get env d url) 0 d None t1)
      as [t2 [[|]|e|]]; cbn [snd negb] in *.
    - unfold bind at 1, WebDriverWait_until.
      match goal with
      | |- context [until_poll ?n ?m None None t2] =>
          pose proof (until_poll_total m) as Hwait;
          specialize (Hwait
                        ltac:(intros t'; unfold bind, execute_script, call, ret;
                              destruct (on_execute_script env t' d _);
                              discriminate) n None None t2);
          destruct (until_poll n m None None t2) as [t3 [[]|e|]]
      end; cbn [snd] in *; [| |contradiction].
      + unfold bind, page_source, call, ret.
        destruct (on_page_source env t3 d) as [src|e]; [discriminate|].
        cbn [except]. destruct (is_TimeoutException e); [discriminate|].
        destruct (is_WebDriverException e); discriminate.
      + cbn [except]. destruct (is_TimeoutException e); [discriminate|].
        destruct (is_WebDriverException e); discriminate.
    - discriminate.
    - cbn [except]. destruct (is_TimeoutException e); [discriminate|].
      destruct (is_WebDriverException e); discriminate.
    - exfalso. apply Hloop; [lia|reflexivity]. }
  unfold try_finally. destruct (body t1) as [t2 o]. cbn [snd] in Hbody.
  assert (exists t3 o3, stop env d t2 = (t3, o3) /\ o3 <> Diverged)
    as (t3 & o3 & Hstop & Ho3).
  { rewrite stop_run. destruct (on_quit env t2 d) as [[]|e'];
      [|destruct (is_WebDriverException e')];
      eexists; eexists; (split; [reflexivity|discriminate]). }
  split; [|exists t2]; rewrite Hstop;
    destruct o as [a|e|]; try contradiction;
    destruct o3 as [[]|e'|]; try contradiction;
    cbn [fst snd]; try discriminate; reflexivity.
Qed.

(** ** Sessions of a whole [scrape] *)

(** C2 fails on the code.  The first navigation times out and the server is
    otherwise sound.  [_safe_get] replaces the session twice, but the new
    drivers stay in its local variable: every attempt is made on driver 0,
    and the [finally] of [_fetch_url] stops the driver it has created itself
    ([fetch_url_stops_its_driver]).  So [scrape] creates the drivers 0, 1 and
    2, calls [quit] on 0, on 1 and on 0 again, and returns with driver 2
    open. *)
Lemma scrape_leaves_replacement_open :
  let env :=
    Fake.strict
      (Fake.navigating (fun n => if n =? 0 then Fake.timeout else Ok tt)
         (Fake.healthy "<body><p>short</p></body>")) in
  let run :=
    scrape Lite.BeautifulSoup env Fake.scraper "http://example.org/" [] in
  snd run = Returned (Some NOT_RESPONDING)
  /\ sessions (fst run) = [0; 1; 2]
  /\ navigated (fst run) = [0; 0; 0]
  /\ quits (fst run) = [0; 1; 0]
  /\ left_open (fst run) = [2]
  /\ steps (fst run)
     = [Create; Attempt false; Release; Create; Attempt false; Release;
        Create; Attempt false; Release].
Proof. cbv zeta. repeat split; vm_compute; reflexivity. Qed.

(** C7 fails on the code.  [_fetch_url] calls [start] before its [try]: when
    the endpoint rejects the session, or a call of the set-up after the
    creation fails, the exception leaves [scrape]; in the second case the
    driver is left open as well. *)
Lemma scrape_raises_when_start_fails :
  let rejected := Err (WebDriverException "session not created") in
  let run_rejected :=
    scrape Lite.BeautifulSoup
      (Fake.creating (fun _ => rejected) (Fake.healthy EmptyString))
      Fake.scraper "http://example.org/" [] in
  let run_setup :=
    scrape Lite.BeautifulSoup
      (Fake.configuring Fake.timeout (Fake.healthy EmptyString))
      Fake.scraper "http://example.org/" [] in
  snd run_rejected = Raised (WebDriverException "session not created")
  /\ sessions (fst run_rejected) = []
  /\ snd run_setup = Raised (TimeoutException "timeout")
  /\ left_open (fst run_setup) = [0].
Proof. cbv zeta. repeat split; vm_compute; reflexivity. Qed.

(** ** Outcomes as strings *)

(** C10, as the code has it.  The outcomes are strings among the strings.
    Between [_fetch_url] and [scrape] they collide with content: whenever
    [_fetch_url] returns the "not responding" sentence [scrape] returns it
    and does nothing else, whether three navigations have failed or the
    fetch has succeeded on a page whose source is that sentence.  At the
    return of [scrape] they do not: extracted content equal to either
    sentence comes back as the "no relevant information" sentence; a
    returned "not responding" sentence was always the value of the fetch, a
    returned "no relevant information" sentence always stands for a
    non-empty text shorter than 1000 characters, and any other string
    returned has at least 1000 characters, more than either sentence. *)
Theorem sentinels_are_in_band (BeautifulSoup : string -> node) :
  (forall env self url t t',
      _fetch_url env self url t = (t', Returned (Some NOT_RESPONDING)) ->
      scrape BeautifulSoup env self url t
      = (t', Returned (Some NOT_RESPONDING)))
  /\ (forall url,
         let served := Fake.healthy NOT_RESPONDING in
         let dead :=
           Fake.navigating (fun _ => Fake.timeout) (Fake.healthy EmptyString)
         in
         let fetched := _fetch_url served Fake.scraper url [] in
         session_calls (fst fetched)
         = [Created 0; Attempted 0 true; Released 0]
         /\ In (PageSource 0 (Ok NOT_RESPONDING)) (fst fetched)
         /\ snd fetched = Returned (Some NOT_RESPONDING)
         /\ snd (_fetch_url dead Fake.scraper url []) = snd fetched
         /\ snd (scrape BeautifulSoup dead Fake.scraper url [])
            = snd (scrape BeautifulSoup served Fake.scraper url []))
  /\ (forall env self url t t' page text,
         _fetch_url env self url t = (t', Returned (Some page)) ->
         page <> NOT_RESPONDING ->
         _extract_paragraphs BeautifulSoup (Some page) = Some text ->
         text = NOT_RESPONDING \/ text = NOT_RELEVANT ->
         snd (scrape BeautifulSoup env self url t)
         = Returned (Some NOT_RELEVANT))
  /\ (forall env self url t s,
         snd (scrape BeautifulSoup env self url t) = Returned (Some s) ->
         (s = NOT_RESPONDING
          /\ snd (_fetch_url env self url t) = Returned (Some NOT_RESPONDING))
         \/ (s = NOT_RELEVANT
             /\ exists page text,
                 snd (_fetch_url env self url t) = Returned (Some page)
                 /\ page <> NOT_RESPONDING
                 /\ _extract_paragraphs BeautifulSoup (Some page) = Some text
                 /\ 0 < String.length text < 1000)
         \/ (1000 <= String.length s
             /\ exists page,
                 snd (_fetch_url env self url t) = Returned (Some page)
                 /\ page <> NOT_RESPONDING
                 /\ _extract_paragraphs BeautifulSoup (Some page) = Some s))
  /\ String.length NOT_RESPONDING = 28
  /\ String.length NOT_RELEVANT = 49.
Proof.
  split; [|split; [|split; [|split; [|split; reflexivity]]]].
  - intros env self url t t' Hfetch. unfold scrape, bind.
    rewrite Hfetch. reflexivity.
  - intros url. cbv zeta.
    assert (_fetch_url (Fake.healthy NOT_RESPONDING) Fake.scraper url []
            = (fst (_fetch_url (Fake.healthy NOT_RESPONDING) Fake.scraper url
                      []),
               Returned (Some NOT_RESPONDING))) as Hserved
        by (vm_compute; reflexivity).
    assert (_fetch_url
              (Fake.navigating (fun _ => Fake.timeout)
                 (Fake.healthy EmptyString)) Fake.scraper url []
            = (fst (_fetch_url
                      (Fake.navigating (fun _ => Fake.timeout)
                         (Fake.healthy EmptyString)) Fake.scraper url []),
               Returned (Some NOT_RESPONDING))) as Hdead
        by (vm_compute; reflexivity).
    rewrite !(scrape_after_fetch BeautifulSoup _ _ _ _ _ _ Hserved),
      !(scrape_after_fetch BeautifulSoup _ _ _ _ _ _ Hdead).
    repeat split; try (vm_compute; reflexivity).
    vm_compute. do 7 right. now left.
  - intros env self url t t' page text Hfetch Hne Htext Hsentinel.
    rewrite (scrape_after_fetch _ _ _ _ _ _ _ Hfetch).
    apply String.eqb_neq in Hne. rewrite Hne, Htext.
    destruct Hsentinel as [-> | ->]; reflexivity.
  - intros env self url t s.
    destruct (_fetch_url env self url t) as [t1 [page|e|]] eqn:Hfetch;
      try (unfold scrape, bind; rewrite Hfetch; discriminate).
    rewrite (scrape_after_fetch _ _ _ _ _ _ _ Hfetch). cbn [snd].
    destruct page as [p|]; [|discriminate].
    destruct (String.eqb_spec p NOT_RESPONDING) as [->|Hne];
      [intros [= <-]; now left|].
    destruct (_extract_paragraphs BeautifulSoup (Some p)) as [[|c text]|] eqn:E;
      try discriminate.
    destruct (Nat.ltb_spec (String.length (String c text)) 1000) as [Hlt|Hge].
    + intros [= <-]. right. left. split; [reflexivity|].
      exists p, (String c text). repeat split; try assumption. cbn. lia.
    + intros [= <-]. right. right. split; [exact Hge|]. exists p. auto.
Qed.

Lemma sentinels_are_in_band_witness :
  let page := ("<body><div>" ++ NOT_RELEVANT ++ "</div></body>")%string in
  snd (scrape Lite.BeautifulSoup (Fake.healthy page) Fake.scraper
         "http://example.org/" [])
  = Returned (Some NOT_RELEVANT).
Proof.
  cbv zeta.
  apply (proj1 (proj2 (proj2 (sentinels_are_in_band Lite.BeautifulSoup)))
           (Fake.healthy ("<body><div>" ++ NOT_RELEVANT ++ "</div></body>"))
           Fake.scraper "http://example.org/" []
           (fst (_fetch_url
                   (Fake.healthy
                      ("<body><div>" ++ NOT_RELEVANT ++ "</div></body>"))
                   Fake.scraper "http://example.org/" []))
           ("<body><div>" ++ NOT_RELEVANT ++ "</div></body>")%string
           NOT_RELEVANT).
  - vm_compute. reflexivity.
  - intros H. apply String.eqb_eq in H. vm_compute in H. discriminate.
  - vm_compute. reflexivity.
  - now right.
Defined.

(** C10 as stated fails in its last clause: extracted content equal to the
    "not responding" sentence does not come back as that outcome, but as the
    other sentence. *)
Lemma not_responding_text_is_not_relevant :
  let page := ("<body><div>" ++ NOT_RESPONDING ++ "</div></body>")%string in
  let run :=
    scrape Lite.BeautifulSoup (Fake.healthy page) Fake.scraper
      "http://example.org/" [] in
  _extract_paragraphs Lite.BeautifulSoup (Some page) = Some NOT_RESPONDING
  /\ snd run = Returned (Some NOT_RELEVANT)
  /\ snd run <> Returned (Some NOT_RESPONDING).
Proof.
  cbv zeta. split; [vm_compute; reflexivity|].
  split; [vm_compute; reflexivity|]. vm_compute. discriminate.
Qed.

(** ** Endpoints on which sessions can be replaced *)

Lemma healthy_replacement_completes (nav : nat -> reply unit)
    (page_source : string) :
  replacement_completes (Fake.navigating nav (Fake.healthy page_source))
    Fake.scraper.
Proof.
  split.
  - intros t d. exact I.
  - intros t. eexists. reflexivity.
Qed.

(** ** The trace of the retry loop *)

(** The loop only adds to the trace. *)
Lemma safe_get_while_extends (env : Env) (self : SelenoidWebScraper)
    (target : WebDriver) (url : string) (fuel : nat) :
  forall retries driver last t,
  exists ev,
    fst (_safe_get_while env self fuel (get env target url) retries driver
           last t) = t ++ ev.
Proof.
  induction fuel as [|fuel IH]; intros retries driver last t;
    (destruct (Nat.lt_ge_cases retries 3) as [Hlt|Hge];
     [|rewrite safe_get_done by assumption; eexists; reflexivity]).
  - rewrite safe_get_no_fuel by assumption. exists []. now rewrite app_nil_r.
  - rewrite safe_get_turn by assumption. cbn zeta.
    destruct (on_get env t target url) as [[]|e];
      [eexists; reflexivity|].
    destruct (is_WebDriverException e); [|eexists; reflexivity].
    destruct (retries + 1 <? 3).
    + destruct (stop_trace env driver (t ++ [Get target url (Err e)]))
        as (ev1 & E1 & _).
      destruct (stop env driver _) as [t2 o2]. cbn [fst] in E1.
      destruct (start_trace env self t2) as (ev2 & E2 & _).
      destruct (start env self t2) as [t3 o3]. cbn [fst] in E2.
      destruct o2 as [[]| |]; cbn [fst];
        [|subst t2; rewrite <- app_assoc; eexists; reflexivity
         |subst t2; rewrite <- app_assoc; eexists; reflexivity].
      destruct o3 as [d'| |]; cbn [fst];
        [|subst t3 t2; rewrite <- !app_assoc; eexists; reflexivity
         |subst t3 t2; rewrite <- !app_assoc; eexists; reflexivity].
      destruct (IH (retries + 1) d' (Some e) t3) as [ev3 E3].
      rewrite E3. subst t3 t2. rewrite <- !app_assoc. eexists. reflexivity.
    + destruct (IH (retries + 1) driver (Some e)
                  (t ++ [Get target url (Err e)])) as [ev3 E3].
      rewrite E3. rewrite <- app_assoc. eexists. reflexivity.
Qed.

(** ** The life-cycle calls of the retry loop *)

Lemma created_app (a b : trace) : created (a ++ b) = created a + created b.
Proof. unfold created. now rewrite filter_app, length_app. Qed.

Lemma session_calls_app (a b : trace) :
  session_calls (a ++ b) = session_calls a ++ session_calls b.
Proof.
  induction a as [|e a IH]; [reflexivity|].
  destruct e as [? ? [?|?]| | |? ? [?|?]| | |]; simpl; rewrite IH; reflexivity.
Qed.

(** What [stop] adds to the trace: the [quit] first, and no other call. *)
Lemma stop_session_calls (env : Env) (d : WebDriver) (t : trace) :
  exists ev,
    fst (stop env d t) = t ++ ev
    /\ (exists rest, ev = Quit d (on_quit env t d) :: rest)
    /\ session_calls ev = [Released d] /\ attempts ev = 0 /\ created ev = 0.
Proof.
  rewrite stop_run.
  destruct (on_quit env t d) as [[]|e]; [|destruct (is_WebDriverException e)];
    cbn [fst]; eexists; (split; [reflexivity|]);
    (split; [eexists; reflexivity|]); repeat split.
Qed.

(** What [start] adds when it returns a driver. *)
Lemma start_session_calls (env : Env) (self : SelenoidWebScraper)
    (t t' : trace) (d : WebDriver) :
  start env self t = (t', Returned d) ->
  d = created t
  /\ exists ev,
      t' = t ++ ev /\ session_calls ev = [Created d] /\ attempts ev = 0
      /\ created ev = 1.
Proof.
  unfold start, _create_firefox_driver, get_random_user_agent,
    random_choice_of, _imitate_user_behavior, random_sample, Remote,
    set_page_load_timeout, execute_script, bind, call, ret.
  destruct (USER_AGENTS self) as [|agent agents]; simpl; [discriminate|].
  endpoint_answers; try discriminate;
    intros [= <- <-]; rewrite <- ?app_assoc;
    (split; [reflexivity|]); eexists; (split; [reflexivity|]);
    repeat split.
Qed.

(** One failed attempt with its replacement is one turn of the loop. *)
Lemma failed_round_run (env : Env) (self : SelenoidWebScraper)
    (target : WebDriver) (url : string) (fuel retries : nat)
    (driver : WebDriver) (last : option exn) (t t' : trace) (d' : WebDriver) :
  retries + 1 < 3 ->
  failed_round env self target url t driver t' d' ->
  exists e ev,
    _safe_get_while env self (S fuel) (get env target url) retries driver
      last t
    = _safe_get_while env self fuel (get env target url) (retries + 1) d'
        (Some e) t'
    /\ t' = t ++ ev
    /\ attempts ev = 1
    /\ session_calls ev
       = [Attempted target false; Released driver; Created (created t)]
    /\ created ev = 1
    /\ d' = created t.
Proof.
  intros Hlt (e & He & Hwd & Hquit & Hstart).
  rewrite safe_get_turn by lia. cbn zeta. rewrite He, Hwd.
  apply Nat.ltb_lt in Hlt. rewrite Hlt.
  set (t1 := t ++ [Get target url (Err e)]) in *.
  destruct (stop_session_calls env driver t1) as (ev1 & E1 & _ & C1 & A1 & N1).
  pose proof (stop_returns env driver t1 Hquit) as R1.
  destruct (stop env driver t1) as [t2 o2]. cbn [fst snd] in *. subst o2.
  rewrite Hstart.
  destruct (start_session_calls env self t2 t' d' Hstart)
    as (Hd & ev2 & E2 & C2 & A2 & N2).
  assert (created t2 = created t) as Hc.
  { subst t2 t1. rewrite !created_app, N1. unfold created. cbn. lia. }
  exists e, ([Get target url (Err e)] ++ ev1 ++ ev2).
  split; [reflexivity|]. split; [|split; [|split; [|split]]].
  - subst t' t2 t1. now rewrite <- !app_assoc.
  - rewrite !attempts_app, A1, A2. reflexivity.
  - rewrite !session_calls_app, C1, C2, Hd, Hc. reflexivity.
  - rewrite !created_app, N1, N2. reflexivity.
  - congruence.
Qed.

(** [n] failed attempts with their replacements are [n] turns of the loop. *)
Lemma rounds_run (env : Env) (self : SelenoidWebScraper) (target : WebDriver)
    (url : string) (n : nat) :
  forall fuel retries driver last t t' d',
    retries + n < 3 ->
    rounds env self target url n t driver t' d' ->
    exists last' ev,
      _safe_get_while env self (n + fuel) (get env target url) retries driver
        last t
      = _safe_get_while env self fuel (get env target url) (retries + n) d'
          last' t'
      /\ t' = t ++ ev
      /\ attempts ev = n
      /\ session_calls ev = replaced_rounds target driver (created t) n.
Proof.
  induction n as [|n IH]; intros fuel retries driver last t t' d' Hlt Hrounds.
  - destruct Hrounds as [-> ->]. exists last, [].
    rewrite Nat.add_0_r, app_nil_r. repeat split.
  - destruct Hrounds as (t1 & d1 & Hround & Hrounds).
    destruct (failed_round_run env self target url (n + fuel) retries driver
                last t t1 d1) as (e & ev & Hrun & E & A & C & N & Hd);
      [lia|exact Hround|].
    destruct (IH fuel (retries + 1) d1 (Some e) t1 t' d')
      as (last' & ev' & Hrun' & E' & A' & C'); [lia|exact Hrounds|].
    exists last', (ev ++ ev').
    split; [|split; [|split]].
    + cbn [Nat.add]. rewrite Hrun, Hrun'. f_equal. lia.
    + subst t' t1. now rewrite app_assoc.
    + rewrite attempts_app, A, A'. reflexivity.
    + rewrite session_calls_app, C, C'. cbn [replaced_rounds].
      subst t1 d1. rewrite created_app, N, Nat.add_1_r. reflexivity.
Qed.



(** ** The retry bound *)




(** ** The classes of failures *)

(** After a failure of the family that is not the last allowed, the next
    call is the [quit] of the session in use. *)
Lemma safe_get_releases (env : Env) (self : SelenoidWebScraper)
    (target : WebDriver) (url : string) (fuel retries : nat)
    (driver : WebDriver) (last : option exn) (t : trace) (e : exn) :
  retries + 1 < 3 ->
  on_get env t target url = Err e ->
  is_WebDriverException e = true ->
  exists ev,
    fst (_safe_get_while env self (S fuel) (get env target url) retries driver
           last t)
    = (t ++ [Get target url (Err e)])
        ++ Quit driver (on_quit env (t ++ [Get target url (Err e)]) driver)
        :: ev.
Proof.
  intros Hlt He Hwd. rewrite safe_get_turn by lia. cbn zeta.
  rewrite He, Hwd. apply Nat.ltb_lt in Hlt. rewrite Hlt.
  set (t1 := t ++ [Get target url (Err e)]).
  destruct (stop_session_calls env driver t1) as (ev1 & E1 & [rest Hq] & _).
  destruct (stop env driver t1) as [t2 o2]. cbn [fst] in E1.
  destruct (start_trace env self t2) as (ev2 & E2 & _).
  destruct (start env self t2) as [t3 o3]. cbn [fst] in E2.
  assert (forall more, t2 ++ more
                       = t1 ++ Quit driver (on_quit env t1 driver)
                           :: rest ++ more) as Hshape.
  { intros more. subst t2 ev1. now rewrite <- app_assoc. }
  destruct o2 as [[]| |]; cbn [fst];
    [|exists rest; rewrite <- (app_nil_r t2), Hshape, app_nil_r; reflexivity
     |exists rest; rewrite <- (app_nil_r t2), Hshape, app_nil_r; reflexivity].
  destruct o3 as [d'| |]; cbn [fst];
    [|exists (rest ++ ev2); subst t3; now rewrite Hshape
     |exists (rest ++ ev2); subst t3; now rewrite Hshape].
  destruct (safe_get_while_extends env self target url fuel (retries + 1) d'
              (Some e) t3) as [ev3 E3].
  rewrite E3. subst t3. exists (rest ++ ev2 ++ ev3).
  now rewrite <- app_assoc, Hshape.
Qed.

(** A turn of the loop starts with a navigation. *)
Lemma safe_get_navigates (env : Env) (self : SelenoidWebScraper)
    (target : WebDriver) (url : string) (fuel retries : nat)
    (driver : WebDriver) (last : option exn) (t : trace) :
  retries < 3 ->
  exists ev,
    fst (_safe_get_while env self (S fuel) (get env target url) retries driver
           last t)
    = t ++ Get target url (on_get env t target url) :: ev.
Proof.
  intros Hlt.
  destruct (on_get env t target url) as [[]|e] eqn:He.
  - rewrite safe_get_turn by lia. cbn zeta. rewrite He. now exists [].
  - destruct (is_WebDriverException e) eqn:Hwd.
    + destruct (Nat.ltb_spec (retries + 1) 3) as [Hnext|Hlast].
      * destruct (safe_get_releases env self target url fuel retries driver
                    last t e Hnext He Hwd) as [ev E].
        rewrite E. rewrite <- app_assoc. eexists. reflexivity.
      * rewrite safe_get_turn by lia. cbn zeta. rewrite He, Hwd.
        replace (retries + 1 <? 3) with false
          by (symmetry; apply Nat.ltb_ge; lia).
        rewrite safe_get_done by lia. rewrite <- app_assoc.
        eexists. reflexivity.
    + rewrite safe_get_turn by lia. cbn zeta. rewrite He, Hwd. now exists [].
Qed.

(** C3, as the code has it: [_safe_get] has no class of permanent failures.
    At any of its three attempts (after [n] failed attempts with their
    replacements), a navigation failure outside the [WebDriverException]
    family leaves [_safe_get] at once, as the exception it is: nothing is
    released, no session is opened, no further attempt is made.  A failure of
    the family consumes a retry, whatever its cause.  At the third attempt
    [_safe_get] prints one line and returns False.  At the first and the
    second, the next call is the [quit] of the session in use; when that
    release and the set-up of a new session complete, the new driver has
    been created and the next call is the next navigation attempt; when the
    release or the set-up raises, that exception leaves [_safe_get]. *)
Theorem safe_get_failure_classes (env : Env) (self : SelenoidWebScraper)
    (driver : WebDriver) (url : string) (t : trace) (n : nat) (t' : trace)
    (d' : WebDriver) (e : exn) :
  n < 3 ->
  rounds env self driver url n t driver t' d' ->
  on_get env t' driver url = Err e ->
  let run := _safe_get env self driver (get env driver url) t in
  let t1 := t' ++ [Get driver url (Err e)] in
  (is_WebDriverException e = false -> run = (t1, Raised e))
  /\ (is_WebDriverException e = true -> n = 2 ->
      exists line, run = (t1 ++ [Print line], Returned false))
  /\ (is_WebDriverException e = true -> n < 2 ->
      (exists ev, fst run = t1 ++ Quit d' (on_quit env t1 d') :: ev)
      /\ (forall t2 d'',
             quit_recoverable (on_quit env t1 d') ->
             start env self (fst (stop env d' t1)) = (t2, Returned d'') ->
             exists ev ev',
               t2 = t1 ++ ev
               /\ session_calls ev = [Released d'; Created d'']
               /\ fst run
                  = t2 ++ Get driver url (on_get env t2 driver url) :: ev')
      /\ (forall e',
             snd (stop env d' t1) = Raised e' ->
             run = (fst (stop env d' t1), Raised e'))
      /\ (forall e',
             quit_recoverable (on_quit env t1 d') ->
             snd (start env self (fst (stop env d' t1))) = Raised e' ->
             run = (fst (start env self (fst (stop env d' t1))), Raised e'))).
Proof.
  intros Hn Hrounds He. cbv zeta. unfold _safe_get.
  destruct (rounds_run env self driver url n (3 - n) 0 driver None t t' d')
    as (last' & ev0 & Hrun & _); [lia|exact Hrounds|].
  replace (n + (3 - n)) with 3 in Hrun by lia. rewrite Hrun. clear Hrun.
  cbn [Nat.add].
  destruct (3 - n) as [|fuel] eqn:Hfuel; [lia|].
  split; [|split].
  - intros Hwd. rewrite safe_get_turn by lia. cbn zeta. now rewrite He, Hwd.
  - intros Hwd ->. rewrite safe_get_turn by lia. cbn zeta. rewrite He, Hwd.
    cbn [Nat.add Nat.ltb Nat.leb]. rewrite safe_get_done by lia.
    eexists. reflexivity.
  - intros Hwd Hlt.
    set (t1 := t' ++ [Get driver url (Err e)]).
    assert ((n + 1 <? 3) = true) as Hnext by (apply Nat.ltb_lt; lia).
    split; [|split; [|split]].
    + apply safe_get_releases; [lia|assumption|assumption].
    + intros t2 d'' Hquit Hstart.
      rewrite safe_get_turn by lia. cbn zeta. rewrite He, Hwd, Hnext.
      fold t1.
      destruct (stop_session_calls env d' t1) as (ev1 & E1 & _ & C1 & _).
      pose proof (stop_returns env d' t1 Hquit) as R1.
      destruct (stop env d' t1) as [ta oa]. cbn [fst snd] in *. subst oa.
      rewrite Hstart.
      destruct (start_session_calls env self ta t2 d'' Hstart)
        as (_ & ev2 & E2 & C2 & _).
      destruct fuel as [|fuel]; [lia|].
      destruct (safe_get_navigates env self driver url fuel (n + 1) d''
                  (Some e) t2) as [ev' E']; [lia|].
      exists (ev1 ++ ev2), ev'. split; [|split].
      * subst t2 ta. now rewrite app_assoc.
      * rewrite session_calls_app, C1, C2. reflexivity.
      * exact E'.
    + intros e' Hstop.
      rewrite safe_get_turn by lia. cbn zeta. rewrite He, Hwd, Hnext.
      fold t1. destruct (stop env d' t1) as [ta oa]. cbn [fst snd] in *.
      now subst oa.
    + intros e' Hquit Hstart.
      rewrite safe_get_turn by lia. cbn zeta. rewrite He, Hwd, Hnext.
      fold t1. pose proof (stop_returns env d' t1 Hquit) as R1.
      destruct (stop env d' t1) as [ta oa]. cbn [fst snd] in *. subst oa.
      destruct (start env self ta) as [tb ob]. cbn [fst snd] in *.
      now subst ob.
Qed.

Lemma safe_get_failure_classes_witness :
  let url := "http://example.org/" in
  let broken :=
    Fake.navigating
      (fun _ => Err (PyException "ValueError" "bad request"))
      (Fake.healthy EmptyString) in
  let dead :=
    Fake.strict
      (Fake.navigating (fun _ => Fake.timeout) (Fake.healthy EmptyString)) in
  let t0 := fst (start dead Fake.scraper []) in
  let t1 :=
    fst (start dead Fake.scraper
           (fst (stop dead 0 (t0 ++ [Get 0 url Fake.timeout])))) in
  _safe_get broken Fake.scraper 0 (get broken 0 url) []
  = ([] ++ [Get 0 url (Err (PyException "ValueError" "bad request"))],
     Raised (PyException "ValueError" "bad request"))
  /\ exists ev,
      fst (_safe_get dead Fake.scraper 0 (get dead 0 url) t0)
      = (t1 ++ [Get 0 url Fake.gone])
          ++ Quit 1 (on_quit dead (t1 ++ [Get 0 url Fake.gone]) 1) :: ev.
Proof.
  cbv zeta.
  set (url := "http://example.org/").
  set (broken := Fake.navigating
                   (fun _ => Err (PyException "ValueError" "bad request"))
                   (Fake.healthy EmptyString)).
  set (dead := Fake.strict
                 (Fake.navigating (fun _ => Fake.timeout)
                    (Fake.healthy EmptyString))).
  set (t0 := fst (start dead Fake.scraper [])).
  set (t1 := fst (start dead Fake.scraper
                    (fst (stop dead 0 (t0 ++ [Get 0 url Fake.timeout]))))).
  split.
  - apply (proj1 (safe_get_failure_classes broken Fake.scraper 0 url [] 0 []
                    0 (PyException "ValueError" "bad request")
                    ltac:(lia) (conj eq_refl eq_refl) eq_refl)).
    reflexivity.
  - assert (rounds dead Fake.scraper 0 url 1 t0 0 t1 1) as Hrounds.
    { exists t1, 1. split; [|split; reflexivity].
      exists (TimeoutException "timeout").
      split; [vm_compute; reflexivity|]. split; [reflexivity|].
      split; [vm_compute; exact I|vm_compute; reflexivity]. }
    assert (on_get dead t1 0 url
            = Err (InvalidSessionIdException "invalid session id")) as Hget
        by (vm_compute; reflexivity).
    apply (proj2 (proj2 (safe_get_failure_classes dead Fake.scraper 0 url t0 1
                           t1 1
                           (InvalidSessionIdException "invalid session id")
                           ltac:(lia) Hrounds Hget))).
    + reflexivity.
    + lia.
Defined.

(** C3 as stated fails: the browser refuses a malformed URL with an "invalid
    argument" error, which is a [WebDriverException]; [_safe_get] retries it
    like any other, with three attempts and two replacements of the session,
    and returns False. *)
Lemma malformed_url_is_retried :
  let refused := Err (WebDriverException "invalid argument: Malformed URL") in
  let env := Fake.navigating (fun _ => refused) (Fake.healthy EmptyString) in
  let run := _safe_get env Fake.scraper 0 (get env 0 "htp:/example") [] in
  on_get env [] 0 "htp:/example" = refused
  /\ snd run = Returned false
  /\ attempts (fst run) = 3
  /\ steps (fst run) = [Attempt false; Release; Create;
                        Attempt false; Release; Create;
                        Attempt false].
Proof. cbv zeta. repeat split; vm_compute; reflexivity. Qed.

(** ** What the computations add to the trace *)

Section Appends.

Variable P : event -> Prop.

Lemma appends_ret {A} (a : A) : appends P (ret a).
Proof. intros t. exists []. split; [symmetry; apply app_nil_r|constructor]. Qed.

Lemma appends_raise {A} (e : exn) : appends P (@raise A e).
Proof. intros t. exists []. split; [symmetry; apply app_nil_r|constructor]. Qed.

Lemma appends_diverge {A} : appends P (@diverge A).
Proof. intros t. exists []. split; [symmetry; apply app_nil_r|constructor]. Qed.

Lemma appends_print (line : string) : P (Print line) -> appends P (print line).
Proof. intros H t. exists [Print line]. split; [reflexivity|]. now constructor. Qed.

Lemma appends_call {A} (answer : trace -> reply A) (ev : reply A -> event) :
  (forall r, P (ev r)) -> appends P (call answer ev).
Proof.
  intros H t. exists [ev (answer t)]. split; [reflexivity|].
  constructor; [apply H|constructor].
Qed.

Lemma appends_bind {A B} (m : M A) (k : A -> M B) :
  appends P m -> (forall a, appends P (k a)) -> appends P (bind m k).
Proof.
  intros Hm Hk t. unfold bind.
  destruct (Hm t) as (ev & E & F). destruct (m t) as [t1 o]. cbn [fst] in E.
  subst t1. destruct o as [a|e|]; try (exists ev; now split).
  destruct (Hk a (t ++ ev)) as (ev' & E' & F').
  exists (ev ++ ev'). rewrite E', app_assoc. split; [reflexivity|].
  apply Forall_app. now split.
Qed.

Lemma appends_except {A} (clauses : list ((exn -> bool) * (exn -> M A)))
    (ex : exn) :
  Forall (fun clause => forall e, appends P (snd clause e)) clauses ->
  appends P (except clauses ex).
Proof.
  induction 1 as [|[classes handler] rest Hc _ IH]; cbn [except].
  - apply appends_raise.
  - destruct (classes ex); [apply Hc|apply IH].
Qed.

Lemma appends_try_except {A} (body : M A)
    (clauses : list ((exn -> bool) * (exn -> M A))) :
  appends P body ->
  Forall (fun clause => forall e, appends P (snd clause e)) clauses ->
  appends P (try_except body clauses).
Proof.
  intros Hb Hc t. unfold try_except.
  destruct (Hb t) as (ev & E & F). destruct (body t) as [t1 o]. cbn [fst] in E.
  subst t1. destruct o as [a|e|]; try (exists ev; now split).
  destruct (appends_except clauses e Hc (t ++ ev)) as (ev' & E' & F').
  exists (ev ++ ev'). rewrite E', app_assoc. split; [reflexivity|].
  apply Forall_app. now split.
Qed.

Lemma appends_try_finally {A} (body : M A) (final : M unit) :
  appends P body -> appends P final -> appends P (try_finally body final).
Proof.
  intros Hb Hf t. unfold try_finally.
  destruct (Hb t) as (ev & E & F). destruct (body t) as [t1 o]. cbn [fst] in E.
  subst t1.
  destruct (Hf (t ++ ev)) as (ev' & E' & F').
  destruct (final (t ++ ev)) as [t2 o2]. cbn [fst] in E'. subst t2.
  assert (Forall P (ev ++ ev')) by (apply Forall_app; now split).
  destruct o as [a|e|]; [| |exists ev; now split];
    destruct o2 as [[]|e2|]; exists (ev ++ ev'); rewrite app_assoc; now split.
Qed.

(** A computation that looks at the trace to choose what it does. *)
Lemma appends_choice {A B} (choose : trace -> B) (m : B -> M A) :
  (forall b, appends P (m b)) -> appends P (fun t => m (choose t) t).
Proof. intros H t. apply H. Qed.

Lemma appends_until_poll (method : M bool) :
  appends P method ->
  forall polls screen stacktrace,
    appends P (until_poll polls method screen stacktrace).
Proof.
  intros Hm. induction polls as [|polls IH]; intros screen stacktrace;
    cbn [until_poll];
    (apply appends_bind;
     [apply appends_try_except;
      [apply appends_bind; [assumption|intros value; apply appends_ret]
      |repeat constructor; intros; apply appends_ret]|]);
    intros [[[|] screen'] stacktrace']; try apply appends_ret;
    [apply appends_raise|apply IH].
Qed.

Lemma appends_run_actions (actions : list (M string)) :
  Forall (appends P) actions -> appends P (run_actions actions).
Proof.
  induction 1 as [|action rest Ha _ IH]; cbn [run_actions].
  - apply appends_ret.
  - apply appends_bind; [assumption|intros _; apply IH].
Qed.

End Appends.

(** A stronger property of the events can be weakened. *)
Lemma appends_weaken {A} (P Q : event -> Prop) (m : M A) :
  (forall e, P e -> Q e) -> appends P m -> appends Q m.
Proof.
  intros H Hm t. destruct (Hm t) as (ev & E & F). exists ev.
  split; [assumption|]. eapply Forall_impl; eassumption.
Qed.

(** ** The calls of a whole [scrape] *)

Section ScrapeEvents.

Variable env : Env.
Variable self : SelenoidWebScraper.
Variable url : string.

Let P : event -> Prop := scrape_event self url.

Lemma random_choice_of_member (seq : list string) (t : trace) :
  match snd (random_choice_of env seq t) with
  | Returned x => In x seq
  | Raised e => seq = [] /\ e = PyException "IndexError"
                                  "Cannot choose from an empty sequence"
  | Diverged => False
  end
  /\ fst (random_choice_of env seq t) = t.
Proof.
  unfold random_choice_of. destruct seq as [|x rest]; cbn [fst snd].
  - auto.
  - split; [|reflexivity]. apply nth_In.
    apply Nat.mod_upper_bound. discriminate.
Qed.

Lemma create_firefox_driver_events : appends P (_create_firefox_driver env self).
Proof.
  intros t. unfold _create_firefox_driver, get_random_user_agent, bind.
  destruct (random_choice_of_member (USER_AGENTS self) t) as [Hin Ht].
  destruct (random_choice_of env (USER_AGENTS self) t) as [t1 o].
  cbn [fst snd] in *. subst t1.
  destruct o as [agent|e|]; [|exists []; rewrite app_nil_r; now split|easy].
  unfold Remote.
  destruct (on_new_session env t _ _);
    (eexists; split; [reflexivity|]);
    (constructor; [|constructor]);
    (split; [reflexivity|]);
    (split; [cbn; tauto|]);
    exists agent; (split; [assumption|reflexivity]).
Qed.

Lemma execute_script_events (d : WebDriver) (script : string) :
  In script [HIDE_WEBDRIVER; SCROLL_DOWN; SCROLL_UP; Fake.READY_STATE] ->
  appends P (execute_script env d script).
Proof. intros H. apply appends_call. intros r. exact H. Qed.

Lemma imitate_user_behavior_events (d : WebDriver) :
  appends P (_imitate_user_behavior env d).
Proof.
  unfold _imitate_user_behavior. intros t. unfold bind, random_sample.
  destruct (random_swap env t); cbn [rev app];
    apply appends_run_actions;
    repeat constructor; apply execute_script_events; cbn; tauto.
Qed.

Lemma start_events : appends P (start env self).
Proof.
  unfold start.
  apply appends_bind; [apply create_firefox_driver_events|]. intros d.
  apply appends_bind; [apply appends_call; intros r; reflexivity|]. intros _.
  apply appends_bind; [apply execute_script_events; cbn; tauto|]. intros _.
  apply appends_bind; [apply imitate_user_behavior_events|].
  intros _. apply appends_ret.
Qed.

Lemma stop_events (d : WebDriver) : appends P (stop env d).
Proof.
  unfold stop. apply appends_try_except.
  - apply appends_call. intros r. exact I.
  - repeat constructor. intros e. apply appends_print. exact I.
Qed.

Lemma safe_get_while_events (target : WebDriver) (fuel : nat) :
  forall retries driver last,
    appends P (_safe_get_while env self fuel (get env target url) retries
                 driver last).
Proof.
  induction fuel as [|fuel IH]; intros retries driver last;
    cbn [_safe_get_while]; destruct (retries <? 3);
    try (apply appends_bind; [apply appends_print; exact I
                             |intros _; apply appends_ret]).
  - apply appends_diverge.
  - apply appends_bind.
    + apply appends_try_except.
      * apply appends_bind; [|intros _; apply appends_ret].
        apply appends_call. intros r. reflexivity.
      * repeat constructor. intros e. cbn [snd].
        destruct (retries + 1 <? 3); [|apply appends_ret].
        apply appends_bind; [apply stop_events|]. intros _.
        apply appends_bind; [apply start_events|]. intros d.
        apply appends_ret.
    + intros [result|[[retries' driver'] last']]; [apply appends_ret|apply IH].
Qed.

Lemma fetch_url_events : appends P (_fetch_url env self url).
Proof.
  unfold _fetch_url.
  apply appends_bind; [apply start_events|]. intros d.
  apply appends_try_finally; [|apply stop_events].
  apply appends_try_except.
  - apply appends_bind; [apply safe_get_while_events|]. intros ok.
    destruct (negb ok); [apply appends_ret|].
    apply appends_bind.
    + unfold WebDriverWait_until.
      apply (appends_choice P (polls_left env)
               (fun polls =>
                  until_poll polls
                    (state <- execute_script env d
                                "return document.readyState" ;;
                     ret (String.eqb state "complete")) None None)).
      intros polls. apply appends_until_poll.
      apply appends_bind; [|intros state; apply appends_ret].
      apply execute_script_events. cbn. tauto.
    + intros _. apply appends_bind; [|intros src; apply appends_ret].
      apply appends_call. intros r. exact I.
  - repeat constructor; intros e; cbn [snd];
      (apply appends_bind; [apply appends_print; exact I
                           |intros _; apply appends_ret]).
Qed.

Lemma scrape_events (BeautifulSoup : string -> node) :
  appends P (scrape BeautifulSoup env self url).
Proof.
  unfold scrape.
  apply appends_bind; [apply fetch_url_events|]. intros page.
  destruct (match page with
            | Some s => String.eqb s NOT_RESPONDING
            | None => false
            end); [apply appends_ret|].
  destruct (_extract_paragraphs BeautifulSoup page) as [[|c text]|];
    try (apply appends_bind; [apply appends_print; exact I
                             |intros _; apply appends_ret]).
  apply appends_bind; [apply appends_print; exact I|]. intros _.
  destruct (String.length (String c text) <? 1000);
    (apply appends_bind; [apply appends_print; exact I
                         |intros _; apply appends_ret]).
Qed.

End ScrapeEvents.

(** X1: whatever the endpoint answers, the calls of [scrape] are of these
    kinds only: requests of a session at the executor of the scraper, headless
    and with a user agent of its pool; a page-load timeout of 20; one of the
    four scripts of the source; navigations to the URL it was given; reads of
    the page source; [quit]; printed lines. *)
Theorem scrape_only_makes_its_calls (BeautifulSoup : string -> node)
    (env : Env) (self : SelenoidWebScraper) (url : string) (t : trace) :
  exists ev,
    fst (scrape BeautifulSoup env self url t) = t ++ ev
    /\ Forall (scrape_event self url) ev.
Proof. apply scrape_events. Qed.

(** ** The driver of a fetch *)

Lemma setup_is_page_event (d : WebDriver) (e : event) :
  setup_event e -> page_event d e.
Proof. destruct e; cbn; tauto. Qed.

Lemma start_setup_events (env : Env) (self : SelenoidWebScraper) :
  appends setup_event (start env self).
Proof.
  assert (forall d script,
             script <> Fake.READY_STATE ->
             appends setup_event (execute_script env d script)) as Hscript.
  { intros d script H. apply appends_call. intros r. exact H. }
  unfold start.
  apply appends_bind.
  { intros t. unfold _create_firefox_driver, get_random_user_agent, bind.
    destruct (random_choice_of_member env (USER_AGENTS self) t) as [_ Ht].
    destruct (random_choice_of env (USER_AGENTS self) t) as [t1 o].
    cbn [fst] in Ht. subst t1.
    destruct o as [agent|e|]; try (exists []; rewrite app_nil_r; now split).
    unfold Remote. destruct (on_new_session env t _ _);
      (eexists; split; [reflexivity|]); repeat constructor. }
  intros d.
  apply appends_bind; [apply appends_call; intros r; exact I|]. intros _.
  apply appends_bind; [apply Hscript; discriminate|]. intros _.
  apply appends_bind; [|intros _; apply appends_ret].
  intros t. unfold _imitate_user_behavior, bind, random_sample.
  destruct (random_swap env t); cbn [rev app];
    apply appends_run_actions; repeat constructor; apply Hscript; discriminate.
Qed.

(** The driver [start] returns is the one its session request created. *)
Lemma start_returns_created (env : Env) (self : SelenoidWebScraper)
    (t : trace) (d : WebDriver) :
  snd (start env self t) = Returned d -> d = created t.
Proof.
  unfold start, _create_firefox_driver, get_random_user_agent, bind.
  destruct (random_choice_of_member env (USER_AGENTS self) t) as [_ Ht].
  destruct (random_choice_of env (USER_AGENTS self) t) as [t1 o].
  cbn [fst] in Ht. subst t1.
  destruct o as [agent|e|]; try discriminate.
  unfold Remote. destruct (on_new_session env t _ _); [|discriminate].
  match goal with
  | |- context [set_page_load_timeout env ?d ?n ?t'] =>
      destruct (set_page_load_timeout env d n t') as [t2 [[]|e|]]
  end; try discriminate.
  match goal with
  | |- context [execute_script env ?d ?s t2] =>
      destruct (execute_script env d s t2) as [t3 [v|e|]]
  end; try discriminate.
  destruct (_imitate_user_behavior env (created t) t3) as [t4 [[]|e|]];
    try discriminate.
  unfold ret. cbn [snd]. now intros [= <-].
Qed.

Lemma safe_get_while_page_events (env : Env) (self : SelenoidWebScraper)
    (target : WebDriver) (url : string) (fuel : nat) :
  forall retries driver last,
    appends (page_event target)
      (_safe_get_while env self fuel (get env target url) retries driver last).
Proof.
  induction fuel as [|fuel IH]; intros retries driver last;
    cbn [_safe_get_while]; destruct (retries <? 3);
    try (apply appends_bind; [apply appends_print; exact I
                             |intros _; apply appends_ret]).
  - apply appends_diverge.
  - apply appends_bind.
    + apply appends_try_except.
      * apply appends_bind; [|intros _; apply appends_ret].
        apply appends_call. intros r. reflexivity.
      * repeat constructor. intros e. cbn [snd].
        destruct (retries + 1 <? 3); [|apply appends_ret].
        apply appends_bind.
        { unfold stop. apply appends_try_except.
          - apply appends_call. intros r. exact I.
          - repeat constructor. intros e'. apply appends_print. exact I. }
        intros _.
        apply appends_bind; [|intros d; apply appends_ret].
        eapply appends_weaken; [apply setup_is_page_event
                               |apply start_setup_events].
    + intros [result|[[retries' driver'] last']]; [apply appends_ret|apply IH].
Qed.

(** X2: every navigation, every poll of the ready state and every read of
    the page source of a fetch goes to the driver that [_fetch_url] created
    first, also after [_safe_get] has replaced the session. *)
Theorem fetch_uses_first_driver (env : Env) (self : SelenoidWebScraper)
    (url : string) (t : trace) :
  exists ev,
    fst (_fetch_url env self url t) = t ++ ev
    /\ Forall (page_event (created t)) ev.
Proof.
  unfold _fetch_url, bind.
  destruct (start_setup_events env self t) as (ev0 & E0 & F0).
  pose proof (start_returns_created env self t) as Hd.
  destruct (start env self t) as [t1 o]. cbn [fst snd] in *. subst t1.
  assert (Forall (page_event (created t)) ev0) as F0'
      by (eapply Forall_impl; [apply setup_is_page_event|exact F0]).
  destruct o as [d|e|]; try (exists ev0; now split).
  rewrite (Hd d eq_refl).
  match goal with
  | |- context [try_finally ?body ?final (t ++ ev0)] =>
      assert (appends (page_event (created t)) (try_finally body final)) as H
  end.
  { apply appends_try_finally.
    - apply appends_try_except.
      + apply appends_bind; [apply safe_get_while_page_events|]. intros ok.
        destruct (negb ok); [apply appends_ret|].
        apply appends_bind.
        * unfold WebDriverWait_until.
          apply (appends_choice _ (polls_left env)
                   (fun polls =>
                      until_poll polls
                        (state <- execute_script env (created t)
                                    "return document.readyState" ;;
                         ret (String.eqb state "complete")) None None)).
          intros polls. apply appends_until_poll.
          apply appends_bind; [|intros state; apply appends_ret].
          apply appends_call. intros r _. reflexivity.
        * intros _. apply appends_bind; [|intros src; apply appends_ret].
          apply appends_call. intros r. reflexivity.
      + repeat constructor; intros e; cbn [snd];
          (apply appends_bind; [apply appends_print; exact I
                               |intros _; apply appends_ret]).
    - unfold stop. apply appends_try_except.
      + apply appends_call. intros r. exact I.
      + repeat constructor. intros e'. apply appends_print. exact I. }
  destruct (H (t ++ ev0)) as (ev1 & E1 & F1).
  exists (ev0 ++ ev1). rewrite E1, app_assoc. split; [reflexivity|].
  apply Forall_app. now split.
Qed.

(** ** The exceptions that leave the computations *)

Section Ends.

Variable C : exn -> Prop.

Lemma ends_ret {A} (R : A -> Prop) (a : A) : R a -> ends_with C R (ret a).
Proof. intros H t. exact H. Qed.

Lemma ends_print (line : string) : raises_within C (print line).
Proof. intros t. exact I. Qed.

Lemma ends_call {A} (answer : trace -> reply A) (ev : reply A -> event) :
  (forall t e, answer t = Err e -> C e) -> raises_within C (call answer ev).
Proof.
  intros H t. unfold call. cbn [snd].
  destruct (answer t) as [a|e] eqn:E; [exact I|]. now apply (H t).
Qed.

Lemma ends_bind {A B} (R : A -> Prop) (R' : B -> Prop) (m : M A)
    (k : A -> M B) :
  ends_with C R m -> (forall a, R a -> ends_with C R' (k a)) ->
  ends_with C R' (bind m k).
Proof.
  intros Hm Hk t. unfold bind. specialize (Hm t).
  destruct (m t) as [t1 [a|e|]]; cbn [snd] in *; try assumption.
  now apply Hk.
Qed.

Lemma ends_try_except {A} (C0 : exn -> Prop) (R : A -> Prop) (body : M A)
    (clauses : list ((exn -> bool) * (exn -> M A))) :
  ends_with C0 R body ->
  (forall e, C0 e -> ends_with C R (except clauses e)) ->
  ends_with C R (try_except body clauses).
Proof.
  intros Hb Hc t. unfold try_except. specialize (Hb t).
  destruct (body t) as [t1 [a|e|]]; cbn [snd] in *; try easy.
  now apply Hc.
Qed.

Lemma ends_try_finally {A} (R : A -> Prop) (body : M A) (final : M unit) :
  ends_with C R body -> raises_within C final ->
  ends_with C R (try_finally body final).
Proof.
  intros Hb Hf t. unfold try_finally. specialize (Hb t).
  destruct (body t) as [t1 o]. specialize (Hf t1).
  destruct (final t1) as [t2 [[]|e2|]]; cbn [snd] in *;
    destruct o as [a|e|]; cbn [snd] in *; easy.
Qed.

Lemma ends_until_poll (method : M bool) :
  raises_within C method ->
  (forall d, C (TimeoutException d)) ->
  forall polls screen stacktrace,
    raises_within C (until_poll polls method screen stacktrace).
Proof.
  intros Hm Ht.
  induction polls as [|polls IH]; intros screen stacktrace; cbn [until_poll];
    (apply (ends_bind (fun _ => True));
     [apply (ends_try_except C);
      [eapply ends_bind; [exact Hm|intros value _; now apply ends_ret]
      |intros e He; cbn [except];
       destruct (is_NoSuchElementException e);
       [now apply ends_ret|intros t; exact He]]|]);
    intros [[[|] screen'] stacktrace'] _.
  - now apply ends_ret.
  - intros t. apply Ht.
  - now apply ends_ret.
  - apply IH.
Qed.

Lemma ends_run_actions (actions : list (M string)) :
  Forall (raises_within C) actions -> raises_within C (run_actions actions).
Proof.
  induction 1 as [|action rest Ha _ IH]; cbn [run_actions].
  - now apply ends_ret.
  - eapply ends_bind; [exact Ha|intros _ _; apply IH].
Qed.

End Ends.

Lemma ends_weaken {A} (C C' : exn -> Prop) (R R' : A -> Prop) (m : M A) :
  (forall e, C e -> C' e) -> (forall a, R a -> R' a) ->
  ends_with C R m -> ends_with C' R' m.
Proof.
  intros HC HR Hm t. specialize (Hm t).
  destruct (snd (m t)); auto.
Qed.

Section FamilyOnly.

Variable env : Env.
Variable self : SelenoidWebScraper.
Hypothesis Hfamily : fails_in_family env.

Let family (e : exn) : Prop := is_WebDriverException e = true.

Lemma in_family_ends {A} (answer : trace -> reply A) (ev : reply A -> event) :
  (forall t, in_family (answer t)) -> raises_within family (call answer ev).
Proof.
  intros H. apply ends_call. intros t e E. specialize (H t).
  rewrite E in H. exact H.
Qed.

Lemma stop_always_returns (d : WebDriver) :
  raises_within (fun _ => False) (stop env d).
Proof.
  unfold stop. apply (ends_try_except _ family).
  - apply in_family_ends. intros t. apply Hfamily.
  - intros e He. cbn [except]. unfold family in He. rewrite He.
    apply ends_print.
Qed.

Lemma start_raises_in_family :
  USER_AGENTS self <> [] -> raises_within family (start env self).
Proof.
  intros Hpool.
  assert (forall d script, raises_within family (execute_script env d script))
    as Hscript.
  { intros d script. apply in_family_ends. intros t. apply Hfamily. }
  unfold start. apply (ends_bind _ (fun _ => True)).
  { intros t. unfold _create_firefox_driver, get_random_user_agent, bind.
    destruct (random_choice_of_member env (USER_AGENTS self) t) as [Hin Ht].
    destruct (random_choice_of env (USER_AGENTS self) t) as [t1 o].
    cbn [fst snd] in *. subst t1.
    destruct o as [agent|e|]; [|destruct Hin; contradiction|easy].
    unfold Remote.
    destruct Hfamily as (Hnew & _). specialize (Hnew t).
    match goal with
    | |- context [on_new_session env t ?c ?o] =>
        specialize (Hnew c o); destruct (on_new_session env t c o)
    end; [exact I|exact Hnew]. }
  intros d _.
  eapply ends_bind; [apply in_family_ends; intros t; apply Hfamily|].
  intros _ _. eapply ends_bind; [apply Hscript|]. intros _ _.
  eapply ends_bind; [|intros _ _; now apply ends_ret].
  intros t. unfold _imitate_user_behavior, bind, random_sample.
  destruct (random_swap env t); cbn [rev app];
    apply ends_run_actions; repeat constructor; apply Hscript.
Qed.

Lemma safe_get_while_raises_in_family (target : WebDriver) (url : string)
    (fuel : nat) :
  USER_AGENTS self <> [] ->
  forall retries driver last,
    3 - retries <= fuel ->
    raises_within family
      (_safe_get_while env self fuel (get env target url) retries driver last).
Proof.
  intros Hpool.
  induction fuel as [|fuel IH]; intros retries driver last Hfuel;
    cbn [_safe_get_while]; destruct (Nat.ltb_spec retries 3) as [Hlt|Hge];
    try lia;
    try (eapply ends_bind; [apply ends_print|intros _ _; now apply ends_ret]).
  apply (ends_bind _
           (fun turn : bool + nat * WebDriver * option exn =>
              match turn with
              | inl _ => True
              | inr (retries', _, _) => retries' = retries + 1
              end)).
  - apply (ends_try_except _ family).
    + eapply ends_bind; [|intros _ _; now apply ends_ret].
      apply in_family_ends. intros t. apply Hfamily.
    + intros e He. cbn [except]. rewrite catches_WebDriverException.
      unfold family in He. rewrite He.
      destruct (retries + 1 <? 3); [|now apply ends_ret].
      apply (ends_bind _ (fun _ => True)).
      * eapply ends_weaken; [| |apply stop_always_returns]; easy.
      * intros _ _. eapply ends_bind; [now apply start_raises_in_family|].
        intros d _. now apply ends_ret.
  - intros [result|[[retries' driver'] last']] Hturn; [now apply ends_ret|].
    subst retries'. apply IH. lia.
Qed.

Lemma fetch_body_always_returns (d : WebDriver) (url : string) :
  USER_AGENTS self <> [] ->
  raises_within (fun _ => False)
    (try_finally
       (try_except
          (ok <- _safe_get env self d (get env d url) ;;
           if negb ok then ret (Some NOT_RESPONDING)
           else
             WebDriverWait_until env d 10
               (fun x =>
                  state <- execute_script env x "return document.readyState" ;;
                  ret (String.eqb state "complete")) ;;
             source <- page_source env d ;;
             ret (Some source))
          [(is_TimeoutException,
            fun e =>
              print ("TimeoutException in WebDriverWait, web site not loaded full: "
                       ++ url ++ ": " ++ Exn.str e)%string ;;
              ret (Some NOT_RESPONDING));
           (is_WebDriverException,
            fun e =>
              print ("Error fetching page source from " ++ url ++ ": "
                       ++ Exn.str e)%string ;;
              ret None)])
       (stop env d)).
Proof.
  intros Hpool. apply ends_try_finally; [|apply stop_always_returns].
  apply (ends_try_except _ family).
  - apply (ends_bind _ (fun _ => True)).
    + unfold _safe_get. apply safe_get_while_raises_in_family; [assumption|lia].
    + intros ok _. destruct (negb ok); [now apply ends_ret|].
      apply (ends_bind _ (fun _ => True)).
      * intros t. unfold WebDriverWait_until.
        apply (ends_until_poll family).
        -- eapply ends_bind; [|intros state _; now apply ends_ret].
           apply in_family_ends. intros t'. apply Hfamily.
        -- reflexivity.
      * intros _ _. eapply ends_bind; [|intros src _; now apply ends_ret].
        apply in_family_ends. intros t. apply Hfamily.
  - intros e He. cbn [except]. unfold family in He. rewrite He.
    destruct (is_TimeoutException e);
      (eapply ends_bind; [apply ends_print|intros _ _; now apply ends_ret]).
Qed.

End FamilyOnly.

Lemma start_returns_pool (env : Env) (self : SelenoidWebScraper) (t : trace)
    (d : WebDriver) :
  snd (start env self t) = Returned d -> USER_AGENTS self <> [].
Proof.
  unfold start, _create_firefox_driver, get_random_user_agent, bind,
    random_choice_of.
  destruct (USER_AGENTS self); [discriminate|intros _; discriminate].
Qed.

(** X3: against an endpoint whose failures are all of the
    [WebDriverException] family, the only exception that can leave [scrape]
    is the one of its first [start]: once that [start] has returned a driver,
    [scrape] ends with a return value, whatever fails afterwards. *)
Theorem scrape_raises_only_from_first_start (BeautifulSoup : string -> node)
    (env : Env) (self : SelenoidWebScraper) (url : string) (t : trace) :
  fails_in_family env ->
  match start env self t with
  | (_, Returned _) =>
      exists result,
        snd (scrape BeautifulSoup env self url t) = Returned result
  | (t1, Raised e) => scrape BeautifulSoup env self url t = (t1, Raised e)
  | (_, Diverged) => False
  end.
Proof.
  intros Hfamily.
  pose proof (start_returns_pool env self t) as Hpool.
  destruct (start_trace env self t) as (_ & _ & _ & _ & Hend & _).
  destruct (start env self t) as [t1 [d|e|]] eqn:Hstart; cbn [snd] in *.
  - specialize (Hpool d eq_refl).
    assert (exists page, snd (_fetch_url env self url t) = Returned page)
      as [page Hpage].
    { unfold _fetch_url. unfold bind at 1. rewrite Hstart.
      pose proof (fetch_body_always_returns env self Hfamily d url Hpool t1)
        as H.
      match goal with
      | |- exists page, snd ?run = _ => destruct (snd run) as [page|e|]
      end; [now exists page|destruct H|destruct H]. }
    exists (match page with
            | Some s =>
                if String.eqb s NOT_RESPONDING then Some NOT_RESPONDING
                else
                  match _extract_paragraphs BeautifulSoup page with
                  | Some (String _ _ as text) =>
                      if String.length text <? 1000 then Some NOT_RELEVANT
                      else Some text
                  | _ => None
                  end
            | None => None
            end).
    apply (scrape_after_fetch BeautifulSoup env self url t
             (fst (_fetch_url env self url t))).
    rewrite <- Hpage. destruct (_fetch_url env self url t). reflexivity.
  - unfold scrape, _fetch_url. unfold bind at 1 2. rewrite Hstart.
    reflexivity.
  - now apply Hend.
Qed.

Lemma scrape_raises_only_from_first_start_witness :
  exists result,
    snd (scrape Lite.BeautifulSoup
           (Fake.navigating (fun _ => Fake.timeout) (Fake.healthy EmptyString))
           Fake.scraper "http://example.org/" [])
    = Returned result.
Proof.
  pose proof (scrape_raises_only_from_first_start Lite.BeautifulSoup
                (Fake.navigating (fun _ => Fake.timeout)
                   (Fake.healthy EmptyString))
                Fake.scraper "http://example.org/" []) as H.
  assert (fails_in_family
            (Fake.navigating (fun _ => Fake.timeout)
               (Fake.healthy EmptyString))) as Hfamily.
  { repeat split; intros; exact I || reflexivity. }
  specialize (H Hfamily).
  destruct (start
              (Fake.navigating (fun _ => Fake.timeout)
                 (Fake.healthy EmptyString)) Fake.scraper [])
    as [t1 [d|e|]] eqn:E; [exact H|discriminate E|discriminate E].
Defined.

(** ** Setting up a session *)

(** X4: [get_random_user_agent] makes no call on the endpoint; it returns a
    user agent of the pool of the scraper, and raises [IndexError] exactly
    when the pool is empty. *)
Theorem get_random_user_agent_in_pool (env : Env) (self : SelenoidWebScraper)
    (t : trace) :
  fst (get_random_user_agent env self t) = t
  /\ match snd (get_random_user_agent env self t) with
     | Returned agent => In agent (USER_AGENTS self)
     | Raised e =>
         USER_AGENTS self = []
         /\ e = PyException "IndexError" "Cannot choose from an empty sequence"
     | Diverged => False
     end.
Proof.
  unfold get_random_user_agent.
  destruct (random_choice_of_member env (USER_AGENTS self) t). now split.
Qed.

(** X5: when [_imitate_user_behavior] returns, it has executed the two
    scrolling scripts on the driver it was given, once each, in one of the
    two orders; when it raises, it has executed one or two of them and no
    script after the one that failed. *)
Theorem imitate_user_behavior_scripts (env : Env) (d : WebDriver) (t : trace) :
  exists ev,
    fst (_imitate_user_behavior env d t) = t ++ ev
    /\ match snd (_imitate_user_behavior env d t) with
       | Returned _ =>
           scripts ev = [(d, SCROLL_DOWN); (d, SCROLL_UP)]
           \/ scripts ev = [(d, SCROLL_UP); (d, SCROLL_DOWN)]
       | Raised e =>
           exists done failed,
             ev = done ++ [ExecuteScript d failed (Err e)]
             /\ (done = []
                 \/ exists other value,
                     done = [ExecuteScript d other (Ok value)])
       | Diverged => False
       end.
Proof.
  unfold _imitate_user_behavior, random_sample, execute_script, call, bind.
  cbn [run_actions]. endpoint_answers; rewrite <- ?app_assoc;
    (eexists; split; [reflexivity|]); cbn [app scripts]; auto;
    try (exists []; eexists; split; [reflexivity|now left]);
    (eexists; eexists; split;
     [change (?a :: ?b :: nil) with ([a] ++ [b]); reflexivity|]);
    right; eexists; eexists; reflexivity.
Qed.

(** X6: when [start] returns a driver, it has made exactly five calls, in
    this order: the session request that created the driver, the page-load
    timeout of 20 on it, the script that hides [navigator.webdriver], and the
    two scrolling scripts, in one of the two orders. *)
Theorem start_calls_in_order (env : Env) (self : SelenoidWebScraper)
    (t t' : trace) (d : WebDriver) :
  start env self t = (t', Returned d) ->
  exists options first second hidden r1 r2,
    t' = t ++ [NewSession (command_executor self) options (Ok d);
               SetPageLoadTimeout d 20 (Ok tt);
               ExecuteScript d HIDE_WEBDRIVER (Ok hidden);
               ExecuteScript d first (Ok r1);
               ExecuteScript d second (Ok r2)]
    /\ ((first = SCROLL_DOWN /\ second = SCROLL_UP)
        \/ (first = SCROLL_UP /\ second = SCROLL_DOWN)).
Proof.
  unfold start, _create_firefox_driver, get_random_user_agent,
    random_choice_of, _imitate_user_behavior, random_sample, Remote,
    set_page_load_timeout, execute_script, bind, call, ret.
  destruct (USER_AGENTS self) as [|agent agents]; simpl; [discriminate|].
  endpoint_answers; try discriminate;
    intros [= <- <-]; rewrite <- ?app_assoc;
    do 6 eexists; (split; [reflexivity|]); auto.
Qed.

Lemma start_calls_in_order_witness :
  exists options first second hidden r1 r2,
    fst (start (Fake.healthy EmptyString) Fake.scraper [])
    = [] ++ [NewSession (command_executor Fake.scraper) options (Ok 0);
             SetPageLoadTimeout 0 20 (Ok tt);
             ExecuteScript 0 HIDE_WEBDRIVER (Ok hidden);
             ExecuteScript 0 first (Ok r1);
             ExecuteScript 0 second (Ok r2)]
    /\ ((first = SCROLL_DOWN /\ second = SCROLL_UP)
        \/ (first = SCROLL_UP /\ second = SCROLL_DOWN)).
Proof.
  apply (start_calls_in_order (Fake.healthy EmptyString) Fake.scraper []
           (fst (start (Fake.healthy EmptyString) Fake.scraper [])) 0).
  reflexivity.
Defined.



(** ** The paths of a fetch *)




(** What [_fetch_url] does once [start] has returned a driver. *)
Lemma fetch_url_after_start (env : Env) (self : SelenoidWebScraper)
    (url : string) (t t1 : trace) (d : WebDriver) :
  start env self t = (t1, Returned d) ->
  _fetch_url env self url t
  = try_finally
      (try_except
         (ok <- _safe_get env self d (get env d url) ;;
          if negb ok then ret (Some NOT_RESPONDING)
          else
            WebDriverWait_until env d 10
              (fun x =>
                 state <- execute_script env x "return document.readyState" ;;
                 ret (String.eqb state "complete")) ;;
            source <- page_source env d ;;
            ret (Some source))
         [(is_TimeoutException,
           fun e =>
             print ("TimeoutException in WebDriverWait, web site not loaded full: "
                      ++ url ++ ": " ++ Exn.str e)%string ;;
             ret (Some NOT_RESPONDING));
          (is_WebDriverException,
           fun e =>
             print ("Error fetching page source from " ++ url ++ ": "
                      ++ Exn.str e)%string ;;
             ret None)])
      (stop env d) t1.
Proof. intros H. unfold _fetch_url. unfold bind at 1. now rewrite H. Qed.









(** X10: when three navigation attempts fail within the family, the last
    thing [_safe_get] does before it returns False is to print the "Max
    retries reached" line, right after the third attempt; the line ends with
    [str] of the exception of that third attempt, whatever the first two
    were: ["Message: "], its message and a newline, then the screenshot line
    and the stack trace when it carries them. *)
Theorem safe_get_reports_last_failure (env : Env) (self : SelenoidWebScraper)
    (driver : WebDriver) (url : string) (t t' : trace) (d' : WebDriver)
    (e : exn) :
  rounds env self driver url 2 t driver t' d' ->
  on_get env t' driver url = Err e ->
  is_WebDriverException e = true ->
  _safe_get env self driver (get env driver url) t
  = (t' ++ [Get driver url (Err e);
            Print ("Max retries reached. Last error in _safe_get: "
                     ++ Exn.str e)%string],
     Returned false).
Proof.
  intros Hrounds He Hwd. unfold _safe_get.
  destruct (rounds_run env self driver url 2 1 0 driver None t t' d')
    as (last' & ev & Hrun & _); [lia|exact Hrounds|].
  cbn [Nat.add] in Hrun. rewrite Hrun.
  rewrite safe_get_turn by lia. cbn zeta. rewrite He, Hwd.
  cbn [Nat.add Nat.ltb Nat.leb]. rewrite safe_get_done by lia.
  now rewrite <- app_assoc.
Qed.

Lemma safe_get_reports_last_failure_witness :
  let url := "http://example.org/" in
  let dead :=
    Fake.strict
      (Fake.navigating (fun _ => Fake.timeout) (Fake.healthy EmptyString)) in
  let t0 := fst (start dead Fake.scraper []) in
  let t1 :=
    fst (start dead Fake.scraper
           (fst (stop dead 0 (t0 ++ [Get 0 url Fake.timeout])))) in
  let t2 :=
    fst (start dead Fake.scraper
           (fst (stop dead 1 (t1 ++ [Get 0 url Fake.gone])))) in
  _safe_get dead Fake.scraper 0 (get dead 0 url) t0
  = (t2 ++ [Get 0 url Fake.gone;
            Print ("Max retries reached. Last error in _safe_get: "
                     ++ "Message: invalid session id" ++ Exn.LF)%string],
     Returned false).
Proof.
  cbv zeta.
  set (url := "http://example.org/").
  set (dead := Fake.strict
                 (Fake.navigating (fun _ => Fake.timeout)
                    (Fake.healthy EmptyString))).
  set (t0 := fst (start dead Fake.scraper [])).
  set (t1 := fst (start dead Fake.scraper
                    (fst (stop dead 0 (t0 ++ [Get 0 url Fake.timeout]))))).
  set (t2 := fst (start dead Fake.scraper
                    (fst (stop dead 1 (t1 ++ [Get 0 url Fake.gone]))))).
  apply (safe_get_reports_last_failure dead Fake.scraper 0 url t0 t2 2
           (InvalidSessionIdException "invalid session id")).
  - exists t1, 1. split.
    + exists (TimeoutException "timeout").
      split; [vm_compute; reflexivity|]. split; [reflexivity|].
      split; [vm_compute; exact I|vm_compute; reflexivity].
    + exists t2, 2. split; [|split; reflexivity].
      exists (InvalidSessionIdException "invalid session id").
      split; [vm_compute; reflexivity|]. split; [reflexivity|].
      split; [vm_compute; exact I|vm_compute; reflexivity].
  - vm_compute. reflexivity.
  - reflexivity.
Defined.

(** ** Stripped text *)

Lemma extract_paragraphs_stripped (BeautifulSoup : string -> node)
    (page_source : option string) (text : string) :
  _extract_paragraphs BeautifulSoup page_source = Some text ->
  Str.strip text = text.
Proof.
  destruct page_source as [page_source|]; [|discriminate].
  intros Hrun.
  destruct (extract_paragraphs_body _ _ _ Hrun) as [Hsrc [b Hbody]].
  rewrite (extract_paragraphs_run _ _ b Hsrc Hbody) in Hrun.
  cbn zeta in Hrun. apply some_injective in Hrun. subst text.
  destruct (String.length _ <? 1000); [apply strip_twice|].
  unfold primary_text. apply strip_twice.
Qed.

(** X11: the text [_extract_paragraphs] returns has no white space at its
    start nor at its end: stripping it again leaves it as it is. *)
Theorem extract_paragraphs_is_stripped (BeautifulSoup : string -> node)
    (page_source : option string) (text : string) :
  _extract_paragraphs BeautifulSoup page_source = Some text ->
  Str.strip text = text
  /\ (forall c rest, text = String c rest -> Str.isspace c = false).
Proof.
  intros Hrun. pose proof (extract_paragraphs_stripped _ _ _ Hrun) as H.
  split; [exact H|]. intros c rest ->.
  apply (lstrip_fixed_head c rest).
  unfold Str.strip in H.
  assert (Str.lstrip (Str.strip (String c rest)) = Str.strip (String c rest))
    as H' by (unfold Str.strip; apply lstrip_rstrip, lstrip_twice).
  unfold Str.strip in H'. now rewrite H in H'.
Qed.

Lemma extract_paragraphs_is_stripped_witness :
  Str.strip "short" = "short"
  /\ (forall c rest, "short" = String c rest -> Str.isspace c = false).
Proof.
  apply (extract_paragraphs_is_stripped Lite.BeautifulSoup
           (Some "<body><p>  short </p></body>") "short").
  vm_compute. reflexivity.
Defined.

(** ** What [scrape] returns *)

(** X12: for every endpoint and every parser, a string that [scrape] returns
    is the "not responding" sentence, the "no relevant information" sentence,
    or a stripped text of at least 1000 characters. *)
Theorem scrape_returns_sentence_or_long_text (BeautifulSoup : string -> node)
    (env : Env) (self : SelenoidWebScraper) (url : string) (t : trace)
    (s : string) :
  snd (scrape BeautifulSoup env self url t) = Returned (Some s) ->
  s = NOT_RESPONDING \/ s = NOT_RELEVANT
  \/ (1000 <= String.length s /\ Str.strip s = s).
Proof.
  destruct (_fetch_url env self url t) as [t1 [page|e|]] eqn:Hfetch;
    try (unfold scrape, bind; rewrite Hfetch; discriminate).
  rewrite (scrape_after_fetch _ _ _ _ _ _ _ Hfetch).
  destruct page as [p|]; [|discriminate].
  destruct (String.eqb p NOT_RESPONDING); [intros [= <-]; now left|].
  destruct (_extract_paragraphs BeautifulSoup (Some p)) as [[|c text]|] eqn:E;
    try discriminate.
  destruct (Nat.ltb_spec (String.length (String c text)) 1000) as [Hlt|Hge].
  - intros [= <-]. right. now left.
  - intros [= <-]. right. right. split; [exact Hge|].
    now apply (extract_paragraphs_stripped _ _ _ E).
Qed.

Lemma scrape_returns_sentence_or_long_text_witness :
  NOT_RELEVANT = NOT_RESPONDING \/ NOT_RELEVANT = NOT_RELEVANT
  \/ (1000 <= String.length NOT_RELEVANT
      /\ Str.strip NOT_RELEVANT = NOT_RELEVANT).
Proof.
  apply (scrape_returns_sentence_or_long_text Lite.BeautifulSoup
           (Fake.healthy "<body><p>short</p></body>") Fake.scraper
           "http://example.org/" [] NOT_RELEVANT).
  vm_compute. reflexivity.
Defined.

(** X13: [scrape] makes no call on the endpoint of its own.  When
    [_fetch_url] returns, [scrape] adds printed lines only: none for the "not
    responding" sentence; the one line "Body source text is None" with the
    URL when there is no text or an empty one; otherwise two lines, the
    length of the text and then either the line that it is less than 1000
    symbols or the line of success with the URL.  When [_fetch_url] raises,
    [scrape] raises the same exception and adds nothing. *)
Theorem scrape_only_prints_after_fetch (BeautifulSoup : string -> node)
    (env : Env) (self : SelenoidWebScraper) (url : string) (t : trace) :
  match snd (_fetch_url env self url t) with
  | Returned page =>
      fst (scrape BeautifulSoup env self url t)
      = fst (_fetch_url env self url t)
          ++ map Print
               (if match page with
                   | Some s => String.eqb s NOT_RESPONDING
                   | None => false
                   end
                then []
                else
                  match _extract_paragraphs BeautifulSoup page with
                  | Some (String _ _ as text) =>
                      [("Content-Length: "
                          ++ Str.of_nat (String.length text))%string;
                       if String.length text <? 1000
                       then "Content-Length less than 1000 symbols."
                       else ("Page source with text fetched SUCCESS: "
                               ++ url)%string]
                  | _ => [("Body source text is None: " ++ url)%string]
                  end)
  | Raised e =>
      scrape BeautifulSoup env self url t
      = (fst (_fetch_url env self url t), Raised e)
  | Diverged => True
  end.
Proof.
  destruct (_fetch_url env self url t) as [t1 [page|e|]] eqn:Hfetch;
    cbn [fst snd]; [|unfold scrape, bind; now rewrite Hfetch|exact I].
  unfold scrape. unfold bind at 1. rewrite Hfetch.
  destruct (match page with
            | Some s => String.eqb s NOT_RESPONDING
            | None => false
            end).
  - cbn. now rewrite app_nil_r.
  - destruct (_extract_paragraphs BeautifulSoup page) as [[|c text]|];
      unfold bind, print, ret; try destruct (String.length _ <? 1000);
      cbn [fst map]; rewrite <- ?app_assoc; reflexivity.
Qed.

(** ** The router *)

(** X14: the answer of [greeting] does not depend on what was scraped: when
    [scrape] returns, whatever it returns, [greeting] returns its fixed
    dictionary; when [scrape] raises, the exception leaves [greeting].  Every
    navigation it causes is to the one URL written in the router. *)
Theorem greeting_ignores_the_scrape (executor : string)
    (BeautifulSoup : string -> node) (env : Env) (t : trace) :
  let scraper := default_scraper executor in
  let t1 := t ++ [Print "Greeting endpoint accessed"] in
  match snd (scrape BeautifulSoup env scraper GREETING_URL t1) with
  | Returned _ =>
      snd (greeting executor BeautifulSoup env t)
      = Returned [("HI!", "I`m ScraperAPI and I am working with Selenoid!")]
  | Raised e => snd (greeting executor BeautifulSoup env t) = Raised e
  | Diverged => True
  end
  /\ exists ev,
      fst (greeting executor BeautifulSoup env t) = t1 ++ ev
      /\ Forall (scrape_event scraper GREETING_URL) ev.
Proof.
  cbv zeta. unfold greeting, bind, print.
  destruct (scrape_events env (default_scraper executor) GREETING_URL
              BeautifulSoup (t ++ [Print "Greeting endpoint accessed"]))
    as (ev & E & F).
  destruct (scrape BeautifulSoup env (default_scraper executor) GREETING_URL
              (t ++ [Print "Greeting endpoint accessed"]))
    as [t2 [r|e|]]; cbn [fst snd] in *; subst t2;
    (split; [reflexivity || exact I|]); exists ev; now split.
Qed.

(** ** The removal of the unwanted tags *)

Lemma existsb_permutation {A} (f : A -> bool) (l l' : list A) :
  Permutation l l' -> existsb f l = existsb f l'.
Proof.
  induction 1 as [|x l l' _ IH|x y l|l l' l'' _ IH1 _ IH2]; cbn.
  - reflexivity.
  - now rewrite IH.
  - destruct (f x), (f y); reflexivity.
  - now rewrite IH1.
Qed.

(** The queries of the loops for any lists of tag names and of tokens. *)
Lemma remove_any_order_single_pass (tags patterns : list string)
    (soup : node) :
  remove_patterns patterns (remove_tags tags soup)
  = decompose_where
      (fun c =>
         existsb (fun q => found_by q c)
           (map ByName tags
            ++ flat_map
                 (fun pattern => [ByAttr "class" pattern; ByAttr "id" pattern])
                 patterns))
      soup.
Proof.
  unfold remove_patterns, remove_tags.
  transitivity
    (fold_left (fun soup q => decompose_all q soup)
       (map ByName tags
        ++ flat_map
             (fun pattern => [ByAttr "class" pattern; ByAttr "id" pattern])
             patterns)
       soup).
  - rewrite fold_left_app.
    assert (forall l n,
               fold_left (fun soup tag => decompose_all (ByName tag) soup) l n
               = fold_left (fun soup q => decompose_all q soup)
                   (map ByName l) n) as ->
        by (induction l as [|x l IH]; intros n; [reflexivity|apply IH]).
    generalize (fold_left (fun soup q => decompose_all q soup)
                  (map ByName tags) soup).
    induction patterns as [|pattern rest IH]; intros n; [reflexivity|].
    apply IH.
  - rewrite <- (decompose_where_nothing soup) at 1.
    rewrite fold_decompose_all. reflexivity.
Qed.

(** X15: the tree [_remove_unwanted_elements] leaves does not depend on the
    order in which the two sets of the source are gone through: any order of
    the tag names and any order of the tokens gives the same tree. *)
Theorem remove_unwanted_any_order (tags patterns : list string) (soup : node) :
  Permutation tags direct_tags_to_remove ->
  Permutation patterns unwanted_patterns ->
  remove_patterns patterns (remove_tags tags soup)
  = _remove_unwanted_elements soup.
Proof.
  intros Htags Hpatterns.
  rewrite remove_any_order_single_pass, remove_unwanted_single_pass.
  apply decompose_where_ext. intros c. unfold unwanted, unwanted_queries.
  apply existsb_permutation, Permutation_app.
  - now apply Permutation_map.
  - now apply Permutation_flat_map.
Qed.

Lemma remove_unwanted_any_order_witness :
  remove_patterns (rev unwanted_patterns)
    (remove_tags (rev direct_tags_to_remove)
       (Tag "body" []
          [Tag "nav" [] [NavigableString "skip"];
           Tag "p" [("class", AttrList ["menu"])] [NavigableString "gone"];
           Tag "p" [] [NavigableString "kept"]]))
  = _remove_unwanted_elements
      (Tag "body" []
         [Tag "nav" [] [NavigableString "skip"];
          Tag "p" [("class", AttrList ["menu"])] [NavigableString "gone"];
          Tag "p" [] [NavigableString "kept"]]).
Proof.
  apply (remove_unwanted_any_order (rev direct_tags_to_remove)
           (rev unwanted_patterns)).
  - apply Permutation_sym, Permutation_rev.
  - apply Permutation_sym, Permutation_rev.
Defined.

Lemma unwanted_decompose_where (sel : node -> bool) (n : node) :
  unwanted (decompose_where sel n) = unwanted n.
Proof.
  unfold unwanted. induction unwanted_queries as [|q qs IH]; [reflexivity|].
  cbn [existsb]. now rewrite found_by_decompose_where, IH.
Qed.

(** X16: [_remove_unwanted_elements] on a tree it has already gone through
    changes nothing. *)
Theorem remove_unwanted_twice (soup : node) :
  _remove_unwanted_elements (_remove_unwanted_elements soup)
  = _remove_unwanted_elements soup.
Proof.
  rewrite !remove_unwanted_single_pass.
  rewrite decompose_where_twice by (intros c; apply unwanted_decompose_where).
  apply decompose_where_ext. intros c. apply orb_diag.
Qed.

(** X17: after [_remove_unwanted_elements] no tag below the root has one of
    the eight tag names, a class one of whose values is a token of the
    denylist, or an id that is such a token; the root keeps its name and its
    attributes. *)
Theorem remove_unwanted_leaves_none (soup : node) :
  (forall q, In q unwanted_queries ->
             find_all q (_remove_unwanted_elements soup) = [])
  /\ match soup with
     | Tag name attrs _ =>
         exists contents,
           _remove_unwanted_elements soup = Tag name attrs contents
     | _ => _remove_unwanted_elements soup = soup
     end.
Proof.
  rewrite remove_unwanted_single_pass. split.
  - intros q Hq. apply find_all_decompose_where. intros c Hc.
    unfold unwanted. apply existsb_exists. now exists q.
  - destruct soup; try reflexivity. eexists. reflexivity.
Qed.

Lemma find_all_nil_child (q : query) (name : string) (attrs : attrs_t)
    (cs : list node) (c : node) :
  find_all q (Tag name attrs cs) = [] -> In c cs ->
  found_by q c = false /\ find_all q c = [].
Proof.
  cbn [find_all]. intros H Hin.
  assert ((if found_by q c then [c] else []) ++ find_all q c = []) as Hc.
  { induction cs as [|x cs IH]; [destruct Hin|].
    cbn [flat_map] in H. apply app_eq_nil in H. destruct H as [Hx Hcs].
    destruct Hin as [<-|Hin]; [exact Hx|now apply IH]. }
  apply app_eq_nil in Hc. destruct Hc as [Hf Hall].
  split; [|exact Hall]. destruct (found_by q c); [discriminate|reflexivity].
Qed.

Lemma decompose_where_nothing_found (qs : list query) :
  forall n,
    (forall q, In q qs -> find_all q n = []) ->
    decompose_where (fun c => existsb (fun q => found_by q c) qs) n = n.
Proof.
  induction n as [s|s|name attrs cs IH] using node_induction;
    try reflexivity.
  intros Hnone. cbn [decompose_where]. f_equal.
  assert (forall c, In c cs ->
                    existsb (fun q => found_by q c) qs = false
                    /\ (forall q, In q qs -> find_all q c = [])) as Hcs.
  { intros c Hin. split.
    - destruct (existsb _ qs) eqn:E; [|reflexivity].
      apply existsb_exists in E. destruct E as (q & Hq & Hf).
      destruct (find_all_nil_child q name attrs cs c (Hnone q Hq) Hin).
      congruence.
    - intros q Hq.
      now destruct (find_all_nil_child q name attrs cs c (Hnone q Hq) Hin). }
  clear Hnone. induction IH as [|c cs Hc _ IHcs]; [reflexivity|].
  cbn [flat_map]. destruct (Hcs c (or_introl eq_refl)) as [-> Hq].
  rewrite (Hc Hq), IHcs; [reflexivity|].
  intros x Hx. apply Hcs. now right.
Qed.

(** X18: a tree with no unwanted tag below its root comes out of
    [_remove_unwanted_elements] as it went in. *)
Theorem remove_unwanted_keeps_clean_tree (soup : node) :
  (forall q, In q unwanted_queries -> find_all q soup = []) ->
  _remove_unwanted_elements soup = soup.
Proof.
  intros H. rewrite remove_unwanted_single_pass.
  now apply decompose_where_nothing_found.
Qed.

Lemma remove_unwanted_keeps_clean_tree_witness :
  _remove_unwanted_elements
    (Tag "body" [] [Tag "p" [("class", AttrList ["lead"])]
                      [NavigableString "kept"]])
  = Tag "body" [] [Tag "p" [("class", AttrList ["lead"])]
                     [NavigableString "kept"]].
Proof.
  apply remove_unwanted_keeps_clean_tree.
  intros q Hq.
  assert (forallb
            (fun q =>
               match find_all q
                       (Tag "body" []
                          [Tag "p" [("class", AttrList ["lead"])]
                             [NavigableString "kept"]]) with
               | [] => true
               | _ => false
               end) unwanted_queries = true) as Hall
      by (vm_compute; reflexivity).
  rewrite forallb_forall in Hall. specialize (Hall q Hq).
  destruct (find_all q _); [reflexivity|discriminate].
Defined.

(** X19: an unwanted child of a tag, with everything it contains, has no
    effect on what [_remove_unwanted_elements] leaves: the result is the one
    for the tag without that child. *)
Theorem remove_unwanted_forgets_child (name : string) (attrs : attrs_t)
    (before after : list node) (child : node) :
  unwanted child = true ->
  _remove_unwanted_elements (Tag name attrs (before ++ child :: after))
  = _remove_unwanted_elements (Tag name attrs (before ++ after)).
Proof.
  intros H. rewrite !remove_unwanted_single_pass. cbn [decompose_where].
  f_equal. rewrite !flat_map_app. cbn [flat_map]. now rewrite H.
Qed.

Lemma remove_unwanted_forgets_child_witness :
  _remove_unwanted_elements
    (Tag "body" []
       ([Tag "p" [] [NavigableString "kept"]]
          ++ Tag "script" [] [NavigableString "var x;"]
          :: [Tag "p" [] [NavigableString "too"]]))
  = _remove_unwanted_elements
      (Tag "body" []
         ([Tag "p" [] [NavigableString "kept"]]
            ++ [Tag "p" [] [NavigableString "too"]])).
Proof.
  apply (remove_unwanted_forgets_child "body" []
           [Tag "p" [] [NavigableString "kept"]]
           [Tag "p" [] [NavigableString "too"]]
           (Tag "script" [] [NavigableString "var x;"])).
  vm_compute. reflexivity.
Defined.

(** ** Edge cases of the extraction *)

(** X20: [_extract_paragraphs] returns None exactly when there is no page
    source, when the page source is the empty string, or when the parsed
    document has no body; in every other case it returns a text. *)
Theorem extract_paragraphs_none (BeautifulSoup : string -> node)
    (page_source : option string) :
  _extract_paragraphs BeautifulSoup page_source = None
  <-> (page_source = None
       \/ page_source = Some EmptyString
       \/ exists s, page_source = Some s /\ body (BeautifulSoup s) = None).
Proof.
  unfold _extract_paragraphs. split.
  - destruct page_source as [[|c s]|]; auto.
    destruct (body (BeautifulSoup (String c s))) eqn:E; [discriminate|].
    intros _. right. right. now exists (String c s).
  - intros [->|[->|(s & -> & H)]]; try reflexivity.
    destruct s; [reflexivity|]. now rewrite H.
Qed.

Lemma concat_app (sep : string) (a b : list string) :
  a <> [] -> b <> [] ->
  String.concat sep (a ++ b)
  = (String.concat sep a ++ sep ++ String.concat sep b)%string.
Proof.
  intros Ha Hb. induction a as [|x a IH]; [congruence|].
  destruct a as [|y a].
  - cbn [app String.concat]. destruct b; [congruence|reflexivity].
  - change ((x :: y :: a) ++ b) with (x :: (y :: a) ++ b).
    change (String.concat sep (x :: (y :: a) ++ b))
      with (x ++ sep ++ String.concat sep ((y :: a) ++ b))%string.
    rewrite IH by discriminate. cbn [String.concat].
    now rewrite !append_associative.
Qed.

(** X21: the text of a sequence of elements made of two parts is the text of
    the first part, a newline, and the text of the second part; when a part
    is empty it is the text of the other part alone, with no newline.  So
    the text [_extract_paragraphs] builds first has all the [p] tags before
    all the [span] tags. *)
Theorem extract_text_of_two_parts (first second : list node) :
  _extract_text_from_paragraphs (first ++ second)
  = match first, second with
    | [], _ => _extract_text_from_paragraphs second
    | _, [] => _extract_text_from_paragraphs first
    | _, _ =>
        (_extract_text_from_paragraphs first ++ Str.newline
           ++ _extract_text_from_paragraphs second)%string
    end.
Proof.
  unfold _extract_text_from_paragraphs, Str.join.
  destruct first as [|p first]; [reflexivity|].
  destruct second as [|s second]; [now rewrite app_nil_r|].
  rewrite map_app. apply concat_app; discriminate.
Qed.

(** ** Whole scrapes *)



(** X23: when every navigation fails with an exception of the
    [WebDriverException] family and the sessions can be released and opened,
    [scrape] returns the "not responding" sentence after three attempts: it
    has created three sessions and called [quit] three times. *)
Theorem scrape_gives_up_after_three_attempts (BeautifulSoup : string -> node)
    (env : Env) (self : SelenoidWebScraper) (url : string) (t : trace) :
  replacement_completes env self ->
  (forall t' d u, fails_transiently (on_get env t' d u)) ->
  exists ev,
    scrape BeautifulSoup env self url t
    = (t ++ ev, Returned (Some NOT_RESPONDING))
    /\ steps ev = [Create; Attempt false; Release;
                   Create; Attempt false; Release;
                   Create; Attempt false; Release].
Proof.
  intros Hrep Hfail. pose proof Hrep as [Hquit Hstart].
  destruct (start_trace env self t) as (ev0 & E0 & _ & _ & _ & S0).
  destruct (Hstart t) as [d Hd].
  destruct (start env self t) as [t1 o] eqn:Hs. cbn [fst snd] in *.
  subst o t1. destruct (S0 d eq_refl) as [S0' _].
  assert (exists ev,
             _fetch_url env self url t
             = (t ++ ev, Returned (Some NOT_RESPONDING))
             /\ steps ev = [Create; Attempt false; Release;
                            Create; Attempt false; Release;
                            Create; Attempt false; Release])
    as (ev & Hfetch & Hsteps).
  { rewrite (fetch_url_after_start env self url t _ d Hs).
    unfold try_finally, try_except. unfold bind at 1.
    destruct (safe_get_while_exhausts env self d url 3 3 0 d None (t ++ ev0))
      as (ev1 & Hrun & Hsteps1 & _); try assumption; try lia.
    unfold _safe_get. rewrite Hrun. cbn [negb]. unfold ret.
    destruct (stop_trace env d ((t ++ ev0) ++ ev1)) as (ev2 & E2 & S2 & _).
    pose proof (stop_returns env d _ (Hquit ((t ++ ev0) ++ ev1) d)) as R2.
    destruct (stop env d ((t ++ ev0) ++ ev1)) as [t4 o4].
    cbn [fst snd] in *. subst o4 t4.
    exists (ev0 ++ ev1 ++ ev2). split; [now rewrite <- !app_assoc|].
    rewrite !steps_app, S0', Hsteps1, S2. reflexivity. }
  exists ev. split; [|exact Hsteps].
  unfold scrape, bind. rewrite Hfetch. reflexivity.
Qed.

Lemma scrape_gives_up_after_three_attempts_witness :
  exists ev,
    scrape Lite.BeautifulSoup
      (Fake.navigating (fun _ => Fake.timeout) (Fake.healthy EmptyString))
      Fake.scraper "http://example.org/" []
    = ([] ++ ev, Returned (Some NOT_RESPONDING))
    /\ steps ev = [Create; Attempt false; Release;
                   Create; Attempt false; Release;
                   Create; Attempt false; Release].
Proof.
  apply (scrape_gives_up_after_three_attempts Lite.BeautifulSoup
           (Fake.navigating (fun _ => Fake.timeout) (Fake.healthy EmptyString))
           Fake.scraper "http://example.org/" []).
  - apply healthy_replacement_completes.
  - intros t' d u. eexists. split; reflexivity.
Defined.
